(** * pino-roll: the rotation engine of [pino-roll.js]

    A shallow embedding of the closure that [module.exports] builds: its
    variables ([number], [currentSize], [maxSize], [frequencySpec],
    [rollTimeout]), the function [roll], the function [scheduleRoll] and the
    listeners it installs on the destination and on the process.

    JavaScript runs every listener to completion on one thread, so a listener
    is a function from state to state and a run of the program is a list of
    events folded over the state returned by the start-up code.

    What lies outside [pino-roll.js] is kept outside the model:
    - [./lib/utils] is the interface [Utils]; every theorem of the engine is
      stated for an arbitrary implementation of it;
    - the sonic-boom destination is an output log and a flag: constructing
      it and calling [reopen] append an entry, and [reopen] throws
      ["SonicBoom destroyed"] once the destination has been destroyed, which
      happens ahead of its ['close'] event; nothing in [pino-roll.js] catches
      it, so whatever follows the call in the same listener does not run;
    - a process that goes on after such an exception is part of the model:
      the exception is recorded and the next event is taken;
    - the timers of the host are a finite map from timer handles to the
      callbacks that are still pending; the host chooses which pending timer
      runs next, and when;
    - the clock is an input: each [Date.now()] reading is an argument;
    - beside the output log the state keeps a trace of every call the engine
      makes, timers included, in the order it makes them.
    Counters and byte counts are JavaScript numbers holding integers; they are
    integers here. *)

From stdpp Require Import gmap strings list pretty.

Local Open Scope Z_scope.

(** ** Values crossing the interface *)

(** The [size] and [frequency] options are a string, a number or missing. *)
Inductive JsValue : Type :=
| JsUndefined
| JsNumber (n : Z)
| JsString (s : string).

(** A call either returns or throws an [Error] with a message. *)
Inductive Outcome (A : Type) : Type :=
| Returned (a : A)
| Thrown (err : string).
Arguments Returned {A} a.
Arguments Thrown {A} err.

(** The object returned by [parseFrequency]: [frequencySpec.start] and
    [frequencySpec.next], both in milliseconds since the epoch. *)
Record FrequencySpec : Type := MkFrequencySpec { start : Z; next : Z }.

(** [require('./lib/utils')]: the five functions the engine imports.
    [parseFrequency] and [getNext] read the clock; the reading is their last
    argument. [detectLastNumber] reads the directory of the log file, which is
    fixed while the start-up code runs. *)
Class Utils : Type := {
  buildFileName : string → Z → option string → option string → string;
  detectLastNumber : string → option Z → Outcome Z;
  parseSize : JsValue → Outcome (option Z);
  parseFrequency : JsValue → Z → Outcome (option FrequencySpec);
  getNext : JsValue → Z → Z
}.

(** The argument of [module.exports]. [mkdir] is the one field of the rest
    object [opts] that the engine reads (for its truthiness). *)
Record Options : Type := MkOptions {
  file : string;
  size : JsValue;
  frequency : JsValue;
  dateFormat : option string;
  extension : option string;
  mkdir : bool
}.

(** ** The host: signals, timers, output *)

Inductive Signal : Type := SIGHUP | SIGUSR2.

(** The two functions that the engine hands to [setTimeout]. *)
Inductive Callback : Type :=
| RollCallback            (* [roll], in [setTimeout(roll, 0)] *)
| ScheduledCallback.      (* the arrow function of [scheduleRoll] *)

Record Timer : Type := MkTimer { callback : Callback; delay : Z }.

(** What the engine does to the world, in the order it does it. *)
Inductive Effect : Type :=
| ReadDirectory (file : string) (start : option Z)  (* [detectLastNumber] *)
| NewSonicBoom (dest : string)                      (* [new SonicBoom] *)
| Reopen (path : string)                            (* [destination.reopen] *)
| StderrWrite (msg : string).                       (* [process.stderr.write] *)

(** Every call the engine makes, and the exception that leaves a listener. *)
Inductive Call : Type :=
| Did (e : Effect)                               (* a call the output log keeps *)
| ClearTimeoutCall (h : option nat)              (* [clearTimeout(h)] *)
| SetTimeoutCall (id : nat) (cb : Callback) (ms : Z)  (* [setTimeout(cb, ms)] *)
| GetNextCall (frequency : JsValue) (now : Z)    (* [getNext(frequency)] *)
| Raised (msg : string).                         (* thrown and not caught *)

(** What happens to the engine. An [EvTimeout] carries the clock readings of the
    callback it runs: the one [getNext] takes and the one [scheduleRoll]
    takes. [EvDestroy] is the destination being destroyed (ended by its
    owner, or torn down by sonic-boom); its ['close'] event comes later. *)
Inductive Event : Type :=
| EvWrite (writtenSize : Z)
| EvError (err : string)
| EvRetryEAGAIN (err : string) (writeBufferLen remainingBufferLen : Z)
| EvClose
| EvDestroy
| EvSignal (sig : Signal)
| EvTimeout (id : nat) (nowNext nowSchedule : Z).

(** ** The state of the closure and of the host around it *)

Record State : Type := MkState {
  (* the closure *)
  opts : Options;
  frequencySpec : option FrequencySpec;
  number : Z;
  currentSize : Z;
  maxSize : option Z;
  rollTimeout : option nat;
  (* the host *)
  timers : gmap nat Timer;     (* pending timers, by handle *)
  timerSeq : nat;              (* the next handle [setTimeout] returns *)
  onWrite : bool;              (* [destination.on('write', ...)] installed *)
  onceClose : bool;            (* [destination.once('close', ...)] pending *)
  onSIGHUP : bool;             (* [process.on('SIGHUP', ...)] installed *)
  onSIGUSR2 : bool;            (* [process.on('SIGUSR2', ...)] installed *)
  closed : bool;               (* the destination has emitted 'close' *)
  log : list Effect;
  destroyed : bool;            (* sonic-boom's [destroyed] *)
  trace : list Call
}.

Definition set_frequencySpec (v : option FrequencySpec) (s : State) : State :=
  MkState (opts s) v (number s) (currentSize s) (maxSize s) (rollTimeout s)
          (timers s) (timerSeq s) (onWrite s) (onceClose s) (onSIGHUP s)
          (onSIGUSR2 s) (closed s) (log s) (destroyed s) (trace s).

Definition set_number (v : Z) (s : State) : State :=
  MkState (opts s) (frequencySpec s) v (currentSize s) (maxSize s)
          (rollTimeout s) (timers s) (timerSeq s) (onWrite s) (onceClose s)
          (onSIGHUP s) (onSIGUSR2 s) (closed s) (log s) (destroyed s) (trace s).

Definition set_currentSize (v : Z) (s : State) : State :=
  MkState (opts s) (frequencySpec s) (number s) v (maxSize s) (rollTimeout s)
          (timers s) (timerSeq s) (onWrite s) (onceClose s) (onSIGHUP s)
          (onSIGUSR2 s) (closed s) (log s) (destroyed s) (trace s).

Definition set_rollTimeout (v : option nat) (s : State) : State :=
  MkState (opts s) (frequencySpec s) (number s) (currentSize s) (maxSize s) v
          (timers s) (timerSeq s) (onWrite s) (onceClose s) (onSIGHUP s)
          (onSIGUSR2 s) (closed s) (log s) (destroyed s) (trace s).

Definition set_timers (v : gmap nat Timer) (k : nat) (s : State) : State :=
  MkState (opts s) (frequencySpec s) (number s) (currentSize s) (maxSize s)
          (rollTimeout s) v k (onWrite s) (onceClose s) (onSIGHUP s)
          (onSIGUSR2 s) (closed s) (log s) (destroyed s) (trace s).

Definition set_onceClose (v : bool) (s : State) : State :=
  MkState (opts s) (frequencySpec s) (number s) (currentSize s) (maxSize s)
          (rollTimeout s) (timers s) (timerSeq s) (onWrite s) v (onSIGHUP s)
          (onSIGUSR2 s) (closed s) (log s) (destroyed s) (trace s).

Definition set_onWrite (v : bool) (s : State) : State :=
  MkState (opts s) (frequencySpec s) (number s) (currentSize s) (maxSize s)
          (rollTimeout s) (timers s) (timerSeq s) v (onceClose s) (onSIGHUP s)
          (onSIGUSR2 s) (closed s) (log s) (destroyed s) (trace s).

Definition set_onSIGHUP (v : bool) (s : State) : State :=
  MkState (opts s) (frequencySpec s) (number s) (currentSize s) (maxSize s)
          (rollTimeout s) (timers s) (timerSeq s) (onWrite s) (onceClose s) v
          (onSIGUSR2 s) (closed s) (log s) (destroyed s) (trace s).

Definition set_onSIGUSR2 (v : bool) (s : State) : State :=
  MkState (opts s) (frequencySpec s) (number s) (currentSize s) (maxSize s)
          (rollTimeout s) (timers s) (timerSeq s) (onWrite s) (onceClose s)
          (onSIGHUP s) v (closed s) (log s) (destroyed s) (trace s).

Definition set_closed (v : bool) (s : State) : State :=
  MkState (opts s) (frequencySpec s) (number s) (currentSize s) (maxSize s)
          (rollTimeout s) (timers s) (timerSeq s) (onWrite s) (onceClose s)
          (onSIGHUP s) (onSIGUSR2 s) v (log s) (destroyed s) (trace s).

(** Append one entry to the output log. *)
Definition emit (e : Effect) (s : State) : State :=
  MkState (opts s) (frequencySpec s) (number s) (currentSize s) (maxSize s)
          (rollTimeout s) (timers s) (timerSeq s) (onWrite s) (onceClose s)
          (onSIGHUP s) (onSIGUSR2 s) (closed s) (log s ++ [e]) (destroyed s)
          (trace s ++ [Did e]).

(** One entry appended to the trace alone. *)
Definition record (c : Call) (s : State) : State :=
  MkState (opts s) (frequencySpec s) (number s) (currentSize s) (maxSize s)
          (rollTimeout s) (timers s) (timerSeq s) (onWrite s) (onceClose s)
          (onSIGHUP s) (onSIGUSR2 s) (closed s) (log s) (destroyed s)
          (trace s ++ [c]).

Definition set_destroyed (v : bool) (s : State) : State :=
  MkState (opts s) (frequencySpec s) (number s) (currentSize s) (maxSize s)
          (rollTimeout s) (timers s) (timerSeq s) (onWrite s) (onceClose s)
          (onSIGHUP s) (onSIGUSR2 s) (closed s) (log s) v (trace s).

(** [reopen] throws on a destination that has been destroyed. *)
Definition reopenThrows (s : State) : bool := destroyed s.

(** The exception, when one is thrown, on the trace. *)
Definition throwIf (thrown : bool) (msg : string) (s : State) : State :=
  MkState (opts s) (frequencySpec s) (number s) (currentSize s) (maxSize s)
          (rollTimeout s) (timers s) (timerSeq s) (onWrite s) (onceClose s)
          (onSIGHUP s) (onSIGUSR2 s) (closed s) (log s) (destroyed s)
          (if thrown then trace s ++ [Raised msg] else trace s).

(** [setTimeout(cb, ms)]: a handle never used before, and one more pending
    timer. *)
Definition setTimeout (cb : Callback) (ms : Z) (s : State) : nat * State :=
  let id := timerSeq s in
  (id, record (SetTimeoutCall id cb ms)
         (set_timers (<[id := MkTimer cb ms]> (timers s)) (S id) s)).

(** [clearTimeout(h)]: nothing when [h] is [undefined] or no longer pending. *)
Definition clearTimeout (h : option nat) (s : State) : State :=
  record (ClearTimeoutCall h)
    match h with
    | Some id => set_timers (delete id (timers s)) (timerSeq s) s
    | None => s
    end.

(** JavaScript truthiness of [maxSize]: a number other than 0. *)
Definition truthy (v : option Z) : bool :=
  match v with
  | Some n => negb (n =? 0)
  | None => false
  end.

(** ["\n\r"], the end of both diagnostic lines. *)
Definition nl_cr : string := String (Ascii.ascii_of_nat 10) (String (Ascii.ascii_of_nat 13) EmptyString).

(** ** Start-up computations

    The body of [module.exports] threads the output log and stops at the
    first throw. *)
Definition Startup (A : Type) : Type := list Effect → list Effect * Outcome A.

#[global] Instance Startup_ret : MRet Startup := λ A a l, (l, Returned a).

#[global] Instance Startup_bind : MBind Startup := λ A B k m l,
  match m l with
  | (l1, Returned a) => k a l1
  | (l1, Thrown err) => (l1, Thrown err)
  end.

(** The outcome of a call into [./lib/utils]. *)
Definition call {A} (o : Outcome A) : Startup A := λ l, (l, o).

(** One entry appended to the output log. *)
Definition perform (e : Effect) : Startup unit := λ l, (l ++ [e], Returned tt).

(** The current output log. *)
Definition logged : Startup (list Effect) := λ l, (l, Returned l).

Section Engine.
Context `{U : Utils}.

(** [function roll ()]: [++number], then the file name, then [reopen],
    which throws when the destination has been destroyed. The state is the
    one the call leaves, thrown or not; [reopenThrows] tells which. *)
Definition roll (s : State) : State :=
  let s1 := set_number (number s + 1) s in
  let s2 := emit (Reopen (buildFileName (file (opts s1)) (number s1)
                                        (extension (opts s1)) (dateFormat (opts s1))))
                 s1 in
  throwIf (reopenThrows s2) "SonicBoom destroyed" s2.

(** [function scheduleRoll ()]. It is called only where [frequencySpec] is
    an object; on [null] the subtraction would throw after the
    [clearTimeout]. *)
Definition scheduleRoll (now : Z) (s : State) : State :=
  let s1 := clearTimeout (rollTimeout s) s in
  match frequencySpec s1 with
  | Some spec =>
      let '(id, s2) := setTimeout ScheduledCallback (next spec - now) s1 in
      set_rollTimeout (Some id) s2
  | None => s1
  end.

(** [frequencySpec.next = v], on the object [frequencySpec] holds. Like
    [scheduleRoll], it runs only where there is one. *)
Definition set_next (v : Z) (s : State) : State :=
  match frequencySpec s with
  | Some spec => set_frequencySpec (Some (MkFrequencySpec (start spec) v)) s
  | None => s
  end.

(** The arrow function of [scheduleRoll]: [roll()], then
    [frequencySpec.next = getNext(frequency)], then [scheduleRoll()]. When
    [roll()] throws, the two statements after it do not run. *)
Definition scheduledCallback (nowNext nowSchedule : Z) (s : State) : State :=
  let s1 := roll s in
  if reopenThrows s then s1
  else
    let s2 := record (GetNextCall (frequency (opts s1)) nowNext) s1 in
    let s3 := set_next (getNext (frequency (opts s2)) nowNext) s2 in
    scheduleRoll nowSchedule s3.

(** The ['write'] listener. It exists only when [maxSize] is truthy. *)
Definition writeListener (writtenSize : Z) (s : State) : State :=
  let s1 := set_currentSize (currentSize s + writtenSize) s in
  match maxSize s1 with
  | Some max =>
      if max <=? currentSize s1
      then snd (setTimeout RollCallback 0 (set_currentSize 0 s1))
      else s1
  | None => s1
  end.

(** The ['error'] listener: [roll()] when [opts.mkdir], then the line on
    stderr. When [roll()] throws, the line is not written. *)
Definition errorListener (err : string) (s : State) : State :=
  let s1 := if mkdir (opts s) then roll s else s in
  if mkdir (opts s) && reopenThrows s then s1
  else emit (StderrWrite ("Pino Error : " +:+ err +:+ " " +:+ nl_cr)) s1.

(** [destination.retryEAGAIN], of the same shape. *)
Definition retryEAGAIN (err : string) (_writeBufferLen _remainingBufferLen : Z)
    (s : State) : State :=
  let s1 := if mkdir (opts s) then roll s else s in
  if mkdir (opts s) && reopenThrows s then s1
  else emit (StderrWrite ("Pino retryEAGAIN : " +:+ err +:+ " " +:+ nl_cr)) s1.

(** The ['close'] listener, installed with [once]. *)
Definition closeListener (s : State) : State :=
  clearTimeout (rollTimeout s) s.

(** The host runs a pending timer: it leaves the table, then its callback
    runs. A handle that is not pending runs nothing. *)
Definition runTimer (id : nat) (nowNext nowSchedule : Z) (s : State) : State :=
  match timers s !! id with
  | Some t =>
      let s1 := set_timers (delete id (timers s)) (timerSeq s) s in
      match callback t with
      | RollCallback => roll s1
      | ScheduledCallback => scheduledCallback nowNext nowSchedule s1
      end
  | None => s
  end.

(** One event, delivered to the listeners that are installed. A destination
    that emits ['close'] has been destroyed, if it was not already. *)
Definition step (s : State) (e : Event) : State :=
  match e with
  | EvWrite writtenSize => if onWrite s then writeListener writtenSize s else s
  | EvError err => errorListener err s
  | EvRetryEAGAIN err w r => retryEAGAIN err w r s
  | EvClose =>
      let s1 := set_closed true (set_destroyed true s) in
      if onceClose s1 then closeListener (set_onceClose false s1) else s1
  | EvDestroy => set_destroyed true s
  | EvSignal SIGHUP => if onSIGHUP s then roll s else s
  | EvSignal SIGUSR2 => if onSIGUSR2 s then roll s else s
  | EvTimeout id nowNext nowSchedule => runTimer id nowNext nowSchedule s
  end.

Definition run (s : State) (events : list Event) : State :=
  foldl step s events.

(** The body of [module.exports]. [todayNow] is the clock reading of
    [parseFrequency], [now] the one of the first [scheduleRoll]. The new
    destination has no listener and the host no timer of the engine; the
    listeners are installed in source order. *)
Definition pinoRoll (o : Options) (todayNow now : Z) : Startup State :=
  spec ← call (parseFrequency (frequency o) todayNow);
  perform (ReadDirectory (file o) (start <$> spec));;
  num ← call (detectLastNumber (file o) (start <$> spec));
  max ← call (parseSize (size o));
  perform (NewSonicBoom (buildFileName (file o) num (extension o) (dateFormat o)));;
  l ← logged;
  let s0 := MkState o spec num 0 max None ∅ 0%nat
                    false false false false false l false (Did <$> l) in
  let s1 := if spec is Some _ then scheduleRoll now (set_onceClose true s0) else s0 in
  let s2 := if truthy max then set_onWrite true s1 else s1 in
  mret (set_onSIGUSR2 true (set_onSIGHUP true s2)).

Definition startup (o : Options) (todayNow now : Z) : list Effect * Outcome State :=
  pinoRoll o todayNow now [].

(** ** Vocabulary of the properties *)

(** The states a process can be in: what the start-up code returns, and
    what any event makes of such a state. *)
Inductive reachable : State → Prop :=
| reachable_startup o todayNow now l s :
    startup o todayNow now = (l, Returned s) → reachable s
| reachable_step s e :
    reachable s → reachable (step s e).

(** The file name [roll] builds for a sequence number. *)
Definition fileName (s : State) (num : Z) : string :=
  buildFileName (file (opts s)) num (extension (opts s)) (dateFormat (opts s)).

(** What caused a roll. *)
Inductive Trigger : Type := BySize | ByTime | BySignal | ByError.

(** The trigger under which an event calls [roll] in a state, if it does:
    a deferred [roll] was set by the size check, the scheduled callback by
    [scheduleRoll]. *)
Definition trigger (s : State) (e : Event) : option Trigger :=
  match e with
  | EvWrite _ | EvClose | EvDestroy => None
  | EvError _ | EvRetryEAGAIN _ _ _ =>
      if mkdir (opts s) then Some ByError else None
  | EvSignal SIGHUP => if onSIGHUP s then Some BySignal else None
  | EvSignal SIGUSR2 => if onSIGUSR2 s then Some BySignal else None
  | EvTimeout id _ _ =>
      match timers s !! id with
      | Some t =>
          Some (match callback t with
                | RollCallback => BySize
                | ScheduledCallback => ByTime
                end)
      | None => None
      end
  end.

(** The rolls of a run, in order: the trigger of each and the sequence
    number it moved to. *)
Fixpoint rolls (s : State) (events : list Event) : list (Trigger * Z) :=
  match events with
  | [] => []
  | e :: rest =>
      match trigger s e with
      | Some t => (t, number (step s e)) :: rolls (step s e) rest
      | None => rolls (step s e) rest
      end
  end.
End Engine.

(** The state the start-up code returns, once its calls have returned. *)
Definition initialState (o : Options) (spec : option FrequencySpec)
    (num : Z) (max : option Z) (now : Z) (l : list Effect) : State :=
  match spec with
  | Some sp =>
      MkState o spec num 0 max (Some 0%nat)
              {[ 0%nat := MkTimer ScheduledCallback (next sp - now) ]} 1%nat
              (truthy max) true true true false l false
              ((Did <$> l) ++
               [ClearTimeoutCall None;
                SetTimeoutCall 0 ScheduledCallback (next sp - now)])
  | None =>
      MkState o spec num 0 max None ∅ 0%nat (truthy max) false true true false l
              false (Did <$> l)
  end.

(** The paths handed to [reopen], in order. *)
Definition reopens (l : list Effect) : list string :=
  omap (λ e, if e is Reopen p then Some p else None) l.

(** The messages written to stderr, in order. *)
Definition reports (l : list Effect) : list string :=
  omap (λ e, if e is StderrWrite m then Some m else None) l.

(** The file the destination writes to: the last path it was given. *)
Definition currentPath (l : list Effect) : option string :=
  last (omap (λ e, match e with
                   | NewSonicBoom p | Reopen p => Some p
                   | _ => None
                   end) l).

(** What a listener appended to the output log. *)
Definition output (before after : State) : list Effect :=
  drop (length (log before)) (log after).

(** The calls a listener made, in order. *)
Definition calls (before after : State) : list Call :=
  drop (length (trace before)) (trace after).

(** The entry of the output log that a call leaves. *)
Definition logged_by (c : Call) : option Effect :=
  if c is Did e then Some e else None.

Definition sumZ (l : list Z) : Z := foldr Z.add 0 l.

(** Every running total of the byte counts [ws], counted from [c], stays
    below [max]. *)
Fixpoint below (max c : Z) (ws : list Z) : bool :=
  match ws with
  | [] => true
  | w :: rest => (c + w <? max) && below max (c + w) rest
  end.

(** Every write notification of the run reports a byte count of 0 or more. *)
Definition nonNegativeWrites (events : list Event) : Prop :=
  Forall (λ e, if e is EvWrite w then 0 ≤ w else True) events.

(** Report-then-roll: of the reports and rolls in an output, the first is a
    report and a roll comes after it. *)
Fixpoint reportThenRoll (l : list Effect) : bool :=
  match l with
  | StderrWrite _ :: rest => bool_decide (reopens rest ≠ [])
  | Reopen _ :: _ => false
  | _ :: rest => reportThenRoll rest
  | [] => false
  end.

(** Roll-then-report: the first is a roll and a report comes after it. *)
Fixpoint rollThenReport (l : list Effect) : bool :=
  match l with
  | Reopen _ :: rest => bool_decide (reports rest ≠ [])
  | StderrWrite _ :: _ => false
  | _ :: rest => rollThenReport rest
  | [] => false
  end.

(** The invariant of the timer table. Handles are fresh; the pending
    scheduled callback, if any, is the one [rollTimeout] holds, and it is
    pending only while the ['close'] listener waits. *)
Record TimerInv (s : State) : Prop := MkTimerInv {
  inv_fresh : ∀ id t, timers s !! id = Some t → (id < timerSeq s)%nat;
  inv_handle : ∀ id, rollTimeout s = Some id → (id < timerSeq s)%nat;
  inv_kind : ∀ id t, rollTimeout s = Some id → timers s !! id = Some t →
             callback t = ScheduledCallback;
  inv_single : ∀ id t, timers s !! id = Some t → callback t = ScheduledCallback →
               rollTimeout s = Some id ∧ is_Some (frequencySpec s) ∧
               onceClose s = true ∧ closed s = false;
  inv_write : onWrite s = truthy (maxSize s);
  inv_signals : onSIGHUP s = true ∧ onSIGUSR2 s = true
}.

(** ** An implementation of [./lib/utils], for running the engine

    [./lib/utils] is not among the sources at hand. The definitions below
    give the engine something to run on in the examples; no theorem about the
    engine depends on them. *)

(** Modelled from the spec: the Filename Builder of [./lib/utils] is missing;
    "base name, optional formatted-date insertion, sequence number, optional
    extension", a pure function of its four arguments. The date token stands
    for its own rendering and the parts are joined by dots. *)
Definition spec_buildFileName (base : string) (num : Z)
    (ext fmt : option string) : string :=
  base +:+ (if fmt is Some d then "." +:+ d else "") +:+ "." +:+ pretty num
       +:+ (if ext is Some e then e else "").

(** Modelled from the spec: the Last-Number Detector of [./lib/utils] is
    missing; it "returns the maximum found", over the files of the listing
    that fall in the current bucket when a bucket start is given, and 0 when
    there is none. A listing entry is the number of a matching file and its
    time. *)
Definition spec_detectLastNumber (listing : list (Z * Z)) (_ : string)
    (bucket : option Z) : Outcome Z :=
  let inBucket (entry : Z * Z) : bool :=
    if bucket is Some b then b <=? entry.2 else true in
  Returned (foldr Z.max 0 (fst <$> filter (λ entry, inBucket entry = true) listing)).

Definition digit (c : Ascii.ascii) : option Z :=
  let n := Ascii.nat_of_ascii c in
  if ((48 <=? n) && (n <=? 57))%nat then Some (Z.of_nat (n - 48)) else None.

(** The longest prefix of digits, and what follows it. *)
Fixpoint digits (acc : option Z) (s : string) : option Z * string :=
  match s with
  | String c rest =>
      match digit c with
      | Some d => digits (Some (10 * default 0 acc + d)) rest
      | None => (acc, s)
      end
  | EmptyString => (acc, s)
  end.

(** Modelled from the spec: the Size Parser of [./lib/utils] is missing; "an
    integer (interpreted as megabytes) or a string consisting of digits
    followed by an optional unit suffix k, m, or g (case-insensitive)",
    absent input meaning no limit, anything else failing with
    InvalidConfiguration. *)
Definition spec_parseSize (v : JsValue) : Outcome (option Z) :=
  match v with
  | JsUndefined => Returned None
  | JsNumber n => Returned (Some (n * 1048576))
  | JsString s =>
      match digits None s with
      | (Some n, "") => Returned (Some (n * 1048576))
      | (Some n, "k") | (Some n, "K") => Returned (Some (n * 1024))
      | (Some n, "m") | (Some n, "M") => Returned (Some (n * 1048576))
      | (Some n, "g") | (Some n, "G") => Returned (Some (n * 1073741824))
      | _ => Thrown "InvalidConfiguration"
      end
  end%string.

Definition msPerHour : Z := 3600000.
Definition msPerDay : Z := 86400000.

(** Modelled from the spec: [getNext] of [./lib/utils] is missing; for daily
    and hourly "the start of the following day/hour", for an interval
    "from + interval". Days and hours are those of UTC. *)
Definition spec_getNext (v : JsValue) (now : Z) : Z :=
  match v with
  | JsString "daily" => now - now `mod` msPerDay + msPerDay
  | JsString "hourly" => now - now `mod` msPerHour + msPerHour
  | JsNumber n => now + n
  | _ => now
  end.

(** Modelled from the spec: the Frequency Parser of [./lib/utils] is missing;
    "daily", "hourly", a bare integer (milliseconds), or absent; "unrecognized
    string or non-positive numeric interval fails with InvalidConfiguration".
    The start of an interval is the present, later than every existing
    file. *)
Definition spec_parseFrequency (v : JsValue) (now : Z)
    : Outcome (option FrequencySpec) :=
  match v with
  | JsUndefined => Returned None
  | JsString "daily" =>
      Returned (Some (MkFrequencySpec (now - now `mod` msPerDay) (spec_getNext v now)))
  | JsString "hourly" =>
      Returned (Some (MkFrequencySpec (now - now `mod` msPerHour) (spec_getNext v now)))
  | JsNumber n =>
      if 0 <? n then Returned (Some (MkFrequencySpec now (spec_getNext v now)))
      else Thrown "InvalidConfiguration"
  | JsString _ => Thrown "InvalidConfiguration"
  end.

(** The interface, over a directory listing. *)
Definition SpecUtils (listing : list (Z * Z)) : Utils := {|
  buildFileName := spec_buildFileName;
  detectLastNumber := spec_detectLastNumber listing;
  parseSize := spec_parseSize;
  parseFrequency := spec_parseFrequency;
  getNext := spec_getNext
|}.


(** ** Vocabulary of the further properties *)

(** The line an event makes the engine write to stderr, if any. *)
Definition diagnostic (e : Event) : option string :=
  match e with
  | EvError err => Some ("Pino Error : " +:+ err +:+ " " +:+ nl_cr)
  | EvRetryEAGAIN err _ _ => Some ("Pino retryEAGAIN : " +:+ err +:+ " " +:+ nl_cr)
  | _ => None
  end.

Definition isWrite (e : Event) : bool :=
  if e is EvWrite _ then true else false.

(** The events that leave the destination as live as it was. *)
Definition keepsAlive (e : Event) : bool :=
  match e with
  | EvClose | EvDestroy => false
  | _ => true
  end.

(** The destinations constructed, in order. *)
Definition constructions (l : list Effect) : list string :=
  omap (λ e, if e is NewSonicBoom p then Some p else None) l.

(** The size accounting of the ['write'] listener on its own: the count
    left by the byte counts [ws], counted from [c]. *)
Fixpoint carried (max c : Z) (ws : list Z) : Z :=
  match ws with
  | [] => c
  | w :: rest => carried max (if max <=? c + w then 0 else c + w) rest
  end.

(** How many times that count reaches the threshold on the way. *)
Fixpoint crossings (max c : Z) (ws : list Z) : nat :=
  match ws with
  | [] => 0%nat
  | w :: rest =>
      if max <=? c + w then S (crossings max 0 rest)
      else crossings max (c + w) rest
  end.

(** No write listener, no bytes counted, no deferred roll pending. *)
Definition Unsized (s : State) : Prop :=
  onWrite s = false ∧ currentSize s = 0 ∧
  ∀ id t, timers s !! id = Some t → callback t = ScheduledCallback.

(** The destination destroyed and no scheduled callback pending. *)
Definition Dead (s : State) : Prop :=
  destroyed s = true ∧
  ∀ id t, timers s !! id = Some t → callback t = RollCallback.

(** No [frequencySpec], no handle in [rollTimeout], no scheduled callback
    pending. *)
Definition Untimed (s : State) : Prop :=
  frequencySpec s = None ∧ rollTimeout s = None ∧
  ∀ id t, timers s !! id = Some t → callback t = RollCallback.

(** ** A process to run

    A daily rotation with a threshold of one kilobyte and [mkdir] set, started
    on 2023-11-14 at 22:13:20 UTC in a directory that holds file 3 written
    the same day and file 7 written the day before. *)
Definition sampleUtils : Utils :=
  SpecUtils [(3, 1699999000000); (7, 1699900000000)].

Definition sampleOptions : Options :=
  MkOptions "app.log" (JsString "1k") (JsString "daily") None (Some ".log") true.

Definition sampleToday : Z := 1700000000000.
Definition sampleNow : Z := 1700000000005.

Definition sampleState : State :=
  initialState sampleOptions
    (Some (MkFrequencySpec 1699920000000 1700006400000)) 3 (Some 1024) sampleNow
    [ReadDirectory "app.log" (Some 1699920000000); NewSonicBoom "app.log.3.log"].

(** The size trigger fires first, then the timer. *)
Definition sizeThenTime : list Event :=
  [EvWrite 600; EvWrite 500; EvTimeout 1 0 0;
   EvTimeout 0 1700006400001 1700006400002].

(** The timer fires first, then the size trigger. *)
Definition timeThenSize : list Event :=
  [EvTimeout 0 1700006400001 1700006400002; EvWrite 600; EvWrite 500;
   EvTimeout 2 0 0].

(** The same options with a size that no unit matches. *)
Definition badSizeOptions : Options :=
  MkOptions "app.log" (JsString "5x") (JsString "daily") None (Some ".log") true.

(** A threshold of 0 megabytes, which is no threshold. *)
Definition zeroSizeOptions : Options :=
  MkOptions "app.log" (JsNumber 0) (JsString "daily") None (Some ".log") false.

Definition zeroSizeState : State :=
  initialState zeroSizeOptions
    (Some (MkFrequencySpec 1699920000000 1700006400000)) 3 (Some 0) sampleNow
    [ReadDirectory "app.log" (Some 1699920000000); NewSonicBoom "app.log.3.log"].

(** No frequency: every file of the directory counts, and no timer. *)
Definition noFrequencyOptions : Options :=
  MkOptions "app.log" (JsString "1k") JsUndefined None None false.

Definition noFrequencyState : State :=
  initialState noFrequencyOptions None 7 (Some 1024) sampleNow
    [ReadDirectory "app.log" None; NewSonicBoom "app.log.7"].

(** A directory that cannot be read. *)
Definition unreadableUtils : Utils := {|
  buildFileName := spec_buildFileName;
  detectLastNumber := λ _ _, Thrown "ENOENT";
  parseSize := spec_parseSize;
  parseFrequency := spec_parseFrequency;
  getNext := spec_getNext
|}.

(** * Properties *)

Section EngineProperties.
Context `{U : Utils}.

(** ** Start-up *)

Lemma startup_returned o todayNow now l s :
  startup o todayNow now = (l, Returned s) →
  ∃ spec num max,
    parseFrequency (frequency o) todayNow = Returned spec ∧
    detectLastNumber (file o) (start <$> spec) = Returned num ∧
    parseSize (size o) = Returned max ∧
    l = [ReadDirectory (file o) (start <$> spec);
         NewSonicBoom (buildFileName (file o) num (extension o) (dateFormat o))] ∧
    s = initialState o spec num max now l.
Proof.
  unfold startup, pinoRoll, mbind, Startup_bind, call, perform, logged, mret,
    Startup_ret.
  destruct (parseFrequency _ _) as [spec|] eqn:Hf; [|discriminate]. simpl.
  destruct (detectLastNumber _ _) as [num|] eqn:Hd; [|discriminate].
  destruct (parseSize _) as [max|] eqn:Hp; [|discriminate]. simpl.
  intros [= <- <-]. exists spec, num, max. split_and!; try done.
  destruct spec, (truthy max) eqn:Ht; simpl; rewrite ?Ht; done.
Qed.

(** ** The invariant of the timer table *)

Lemma initialState_inv o spec num max now l :
  TimerInv (initialState o spec num max now l).
Proof.
  destruct spec as [sp|]; split; simpl; try done.
  - intros id t [<- _]%lookup_singleton_Some. lia.
  - intros id [= <-]. lia.
  - intros id t [= <-]. rewrite lookup_singleton_eq. by intros [= <-].
  - intros id t [<- _]%lookup_singleton_Some _. eauto.
Qed.

Lemma roll_inv s : TimerInv s → TimerInv (roll s).
Proof. intros []; split; simpl; done. Qed.

Lemma step_inv s e : TimerInv s → TimerInv (step s e).
Proof.
  intros I. destruct e as [w|err|err wl rl| | |sig|id n1 n2]; simpl.
  - destruct (onWrite s) eqn:Hw; [|done].
    unfold writeListener; simpl.
    destruct (maxSize s) as [max|] eqn:Hmax; [|destruct I; split; simpl; done].
    destruct (max <=? currentSize s + w); [|destruct I; split; simpl; done].
    destruct I as [Hf Hh Hk Hs Hwr Hsig]. split; simpl; try done.
    + intros id t [[<- _]|[_ ?%Hf]]%lookup_insert_Some; lia.
    + intros id ?%Hh. lia.
    + intros id t Hr. specialize (Hh _ Hr).
      rewrite lookup_insert_ne by lia. by apply Hk.
    + intros id t [[_ <-]|[_ Hl]]%lookup_insert_Some; [done|]. by apply Hs.
  - unfold errorListener.
    destruct (mkdir _), (reopenThrows s); simpl; try apply roll_inv in I;
      destruct I; split; simpl; done.
  - unfold retryEAGAIN.
    destruct (mkdir _), (reopenThrows s); simpl; try apply roll_inv in I;
      destruct I; split; simpl; done.
  - destruct I as [Hf Hh Hk Hs Hwr Hsig].
    destruct (onceClose s) eqn:Hoc; simpl.
    + unfold closeListener, clearTimeout; simpl.
      destruct (rollTimeout s) as [h|] eqn:Hr; split; simpl; rewrite ?Hr; try done.
      * intros id t [_ ?%Hf]%lookup_delete_Some. done.
      * intros id t [= <-]. by rewrite lookup_delete_eq.
      * intros id t [Hne Hl]%lookup_delete_Some Hc.
        destruct (Hs _ _ Hl Hc) as [[= ->] _]. done.
      * intros id t Hl Hc. by destruct (Hs _ _ Hl Hc) as [? _].
    + split; simpl; try done.
      intros id t Hl Hc. destruct (Hs _ _ Hl Hc) as (_ & _ & ? & _). congruence.
  - destruct I. split; simpl; done.
  - destruct sig; [destruct (onSIGHUP s)|destruct (onSIGUSR2 s)];
      try done; by apply roll_inv.
  - unfold runTimer. destruct (timers s !! id) as [t|] eqn:Hid; [|done].
    destruct I as [Hf Hh Hk Hs Hwr Hsig].
    destruct (callback t) eqn:Hcb.
    + split; simpl; try done.
      * intros j u [_ ?%Hf]%lookup_delete_Some. done.
      * intros j u Hr [Hne Hl]%lookup_delete_Some. by eapply Hk.
      * intros j u [Hne Hl]%lookup_delete_Some Hc. by apply Hs in Hl.
    + destruct (Hs _ _ Hid Hcb) as (Hr & [sp Hsp] & Hoc & Hcl).
      unfold scheduledCallback, reopenThrows. simpl.
      destruct (destroyed s) eqn:Hd.
      * split; simpl; try done.
        -- intros j u [_ ?%Hf]%lookup_delete_Some. done.
        -- intros j u Hj. rewrite Hr in Hj. injection Hj as <-.
           by rewrite lookup_delete_eq.
        -- intros j u [Hne Hl]%lookup_delete_Some Hc.
           destruct (Hs _ _ Hl Hc) as [? _]. congruence.
      * unfold scheduleRoll, set_next, clearTimeout; simpl.
        rewrite Hsp; simpl. rewrite Hr; simpl.
        split; simpl; try done.
        -- intros j u [[<- _]|[_ [_ [_ ?%Hf]%lookup_delete_Some]%lookup_delete_Some]]%lookup_insert_Some; lia.
        -- intros j [= <-]. lia.
        -- intros j u [= <-]. rewrite lookup_insert_eq. by intros [= <-].
        -- intros j u [[<- _]|[_ [_ [Hne Hl]%lookup_delete_Some]%lookup_delete_Some]]%lookup_insert_Some Hc;
             [eauto|].
           destruct (Hs _ _ Hl Hc) as [? _]. congruence.
Qed.

Lemma reachable_inv s : reachable s → TimerInv s.
Proof.
  induction 1 as [o t n l s Hs|s e _ IH].
  - apply startup_returned in Hs as (spec & num & max & _ & _ & _ & _ & ->).
    apply initialState_inv.
  - by apply step_inv.
Qed.

Lemma reachable_run s events : reachable s → reachable (run s events).
Proof.
  revert s. induction events as [|e events IH]; intros s Hs; [done|].
  apply IH. by constructor.
Qed.

(** ** What one event does to the sequence number and to the output *)

Lemma reopens_app l1 l2 : reopens (l1 ++ l2) = reopens l1 ++ reopens l2.
Proof. apply omap_app. Qed.

Lemma roll_spec s :
  roll s = throwIf (destroyed s) "SonicBoom destroyed"
             (emit (Reopen (fileName s (number s + 1)))
                   (set_number (number s + 1) s)).
Proof. reflexivity. Qed.

Ltac listener_cases e :=
  destruct e as [?w|?err|?err ?wl ?rl| | |?sig|?id ?n1 ?n2]; simpl;
  unfold trigger, writeListener, errorListener, retryEAGAIN, closeListener,
    runTimer, scheduledCallback, scheduleRoll, set_next, clearTimeout,
    setTimeout, reopenThrows;
  repeat case_match; simplify_eq/=.

Lemma step_opts s e : opts (step s e) = opts s.
Proof. listener_cases e; done. Qed.

Lemma step_number s e :
  number (step s e) = number s + (if trigger s e is Some _ then 1 else 0).
Proof. listener_cases e; lia. Qed.

Lemma step_reopens s e :
  reopens (log (step s e)) =
  reopens (log s) ++
    (if trigger s e is Some _ then [fileName s (number s + 1)] else []).
Proof.
  listener_cases e; rewrite ?reopens_app; simpl; rewrite ?app_nil_r;
    rewrite <- ?(assoc_L (++)); done.
Qed.

Lemma fileName_step s e num : fileName (step s e) num = fileName s num.
Proof. unfold fileName. by rewrite step_opts. Qed.

Lemma rolls_numbers s events :
  (rolls s events).*2 = seqZ (number s + 1) (Z.of_nat (length (rolls s events))).
Proof.
  revert s. induction events as [|e events IH]; intros s; [done|].
  cbn [rolls]. pose proof (step_number s e) as Hn. specialize (IH (step s e)).
  destruct (trigger s e).
  - rewrite fmap_cons, IH, Hn. cbn [snd length].
    rewrite Nat2Z.inj_succ, (seqZ_cons (number s + 1) (Z.succ _)) by lia.
    do 2 f_equal; lia.
  - rewrite IH, Hn. do 2 f_equal; lia.
Qed.

Lemma run_number s events :
  number (run s events) = number s + Z.of_nat (length (rolls s events)).
Proof.
  revert s. induction events as [|e events IH]; intros s; [simpl; lia|].
  cbn [rolls run foldl]. fold (run (step s e) events).
  rewrite (IH (step s e)), step_number. destruct (trigger s e); simpl; lia.
Qed.

Lemma run_reopens s events :
  reopens (log (run s events)) =
  reopens (log s) ++ (fileName s <$> (rolls s events).*2).
Proof.
  revert s. induction events as [|e events IH]; intros s.
  - simpl. by rewrite app_nil_r.
  - cbn [rolls run foldl]. fold (run (step s e) events).
    rewrite (IH (step s e)), step_reopens, <- (assoc_L (++)). f_equal.
    pose proof (step_number s e) as Hn.
    destruct (trigger s e); rewrite ?fmap_cons; cbn [snd app]; rewrite ?Hn.
    + f_equal. apply list_fmap_ext. intros _ num _. apply fileName_step.
    + apply list_fmap_ext. intros _ num _. apply fileName_step.
Qed.

(** C1. The sequence number never decreases over a run; it ends at the
    initial number plus the number of rolls of the run, whatever their
    triggers; the rolls move to the numbers initial + 1, initial + 2, ...
    in order, so no two of them move to the same number, and [reopen]
    receives the file names of exactly these numbers; an event that rolls
    adds exactly 1 and any other event adds nothing; a run whose rolls are
    one by size and one by the timer, in either order, ends at the initial
    number plus 2. *)
Theorem sequence_numbers (s : State) (events : list Event) :
  number s ≤ number (run s events) ∧
  number (run s events) = number s + Z.of_nat (length (rolls s events)) ∧
  (rolls s events).*2 = seqZ (number s + 1) (Z.of_nat (length (rolls s events))) ∧
  NoDup (rolls s events).*2 ∧
  reopens (log (run s events)) =
    reopens (log s) ++ (fileName s <$> (rolls s events).*2) ∧
  (∀ e, number (step s e) = number s + (if trigger s e is Some _ then 1 else 0)) ∧
  ((rolls s events).*1 = [BySize; ByTime] ∨ (rolls s events).*1 = [ByTime; BySize] →
   number (run s events) = number s + 2).
Proof.
  pose proof (run_number s events) as Hn.
  pose proof (rolls_numbers s events) as Hr.
  split_and!; try done.
  - lia.
  - rewrite Hr. apply NoDup_seqZ.
  - apply run_reopens.
  - apply step_number.
  - intros H. rewrite Hn.
    assert (length (rolls s events).*1 = 2%nat) as Hl by (destruct H as [-> | ->]; done).
    rewrite length_fmap in Hl. lia.
Qed.

(** ** The size trigger *)

Lemma run_app s events1 events2 :
  run s (events1 ++ events2) = run (run s events1) events2.
Proof. apply foldl_app. Qed.

Lemma write_below s max w :
  maxSize s = Some max → onWrite s = true → currentSize s + w < max →
  step s (EvWrite w) = set_currentSize (currentSize s + w) s.
Proof.
  intros Hmax Hon Hlt. simpl. rewrite Hon. unfold writeListener. simpl.
  rewrite Hmax. by rewrite (proj2 (Z.leb_gt _ _) Hlt).
Qed.

Lemma write_crossing s max w :
  maxSize s = Some max → onWrite s = true → max ≤ currentSize s + w →
  step s (EvWrite w) =
  record (SetTimeoutCall (timerSeq s) RollCallback 0)
    (set_timers (<[timerSeq s := MkTimer RollCallback 0]> (timers s))
                (S (timerSeq s)) (set_currentSize 0 s)).
Proof.
  intros Hmax Hon Hle. simpl. rewrite Hon. unfold writeListener. simpl.
  rewrite Hmax. by rewrite (proj2 (Z.leb_le _ _) Hle).
Qed.

Lemma writes_below s max ws :
  maxSize s = Some max → onWrite s = true →
  below max (currentSize s) ws = true →
  run s (EvWrite <$> ws) = set_currentSize (currentSize s + sumZ ws) s.
Proof.
  revert s. induction ws as [|w ws IH]; intros s Hmax Hon Hb.
  - simpl. rewrite Z.add_0_r. by destruct s.
  - cbn [below] in Hb. apply andb_true_iff in Hb as [Hlt%Z.ltb_lt Hb].
    rewrite fmap_cons. cbn [run foldl]. fold (run (step s (EvWrite w)) (EvWrite <$> ws)).
    rewrite (write_below s max w) by done.
    rewrite IH by done. unfold set_currentSize; simpl. f_equal. lia.
Qed.

(** C2. With a byte-size threshold configured, a write notification adds
    its byte count to [currentSize] and runs no roll itself (the sequence
    number and the output are as before); when the sum reaches [maxSize]
    the count is reset to 0 on the spot and exactly one deferred [roll] is
    handed to the timers, with delay 0. So notifications [pre] that stay
    below the threshold followed by one [w] that crosses it leave exactly
    one deferred roll and a count of 0; later notifications [post] count
    from 0; and when the deferred roll runs, the sequence number grows by
    1, one [reopen] is made, and the count is what [post] alone wrote. *)
Theorem size_trigger (s : State) (max : Z)
    (Hreach : reachable s) (Hmax : maxSize s = Some max)
    (Hcfg : truthy (maxSize s) = true) :
  (∀ w, let s' := step s (EvWrite w) in
     number s' = number s ∧ log s' = log s ∧
     if max <=? currentSize s + w
     then currentSize s' = 0 ∧
          timers s' = <[timerSeq s := MkTimer RollCallback 0]> (timers s)
     else currentSize s' = currentSize s + w ∧ timers s' = timers s) ∧
  (∀ pre w post,
     below max (currentSize s) pre = true →
     max ≤ currentSize s + sumZ pre + w →
     below max 0 post = true →
     let s1 := run s (EvWrite <$> pre ++ [w]) in
     let s2 := run s1 (EvWrite <$> post) in
     (currentSize s1 = 0 ∧ number s1 = number s ∧ log s1 = log s ∧
      timers s1 = <[timerSeq s := MkTimer RollCallback 0]> (timers s)) ∧
     (currentSize s2 = sumZ post ∧ number s2 = number s ∧ log s2 = log s ∧
      timers s2 = timers s1) ∧
     ∀ nowNext nowSchedule,
       let s3 := step s2 (EvTimeout (timerSeq s) nowNext nowSchedule) in
       number s3 = number s + 1 ∧
       log s3 = log s ++ [Reopen (fileName s (number s + 1))] ∧
       currentSize s3 = sumZ post ∧
       timers s3 = timers s).
Proof.
  pose proof (reachable_inv s Hreach) as [Hf _ _ _ Hon _].
  rewrite Hcfg in Hon. split.
  - intros w s'. subst s'. destruct (max <=? currentSize s + w) eqn:Hc.
    + apply Z.leb_le in Hc. by rewrite (write_crossing s max w).
    + apply Z.leb_gt in Hc. by rewrite (write_below s max w).
  - intros pre w post Hpre Hw Hpost s1 s2.
    assert (s1 = record (SetTimeoutCall (timerSeq s) RollCallback 0)
                   (set_timers (<[timerSeq s := MkTimer RollCallback 0]> (timers s))
                               (S (timerSeq s)) (set_currentSize 0 s))) as Hs1.
    { subst s1. rewrite fmap_app, run_app, (writes_below s max pre) by done.
      change (run ?x (EvWrite <$> [w])) with (step x (EvWrite w)).
      rewrite (write_crossing _ max w) by (simpl; done || lia). done. }
    assert (s2 = set_currentSize (sumZ post) s1) as Hs2.
    { subst s2. rewrite (writes_below s1 max post) by (rewrite Hs1; done).
      by rewrite Hs1. }
    split_and!; try (rewrite ?Hs2, Hs1; done).
    intros n1 n2 s3. subst s3. rewrite Hs2, Hs1. simpl. unfold runTimer. simpl.
    rewrite lookup_insert_eq. simpl. split_and!; try done.
    rewrite delete_insert_eq. apply delete_id.
    destruct (timers s !! timerSeq s) as [t|] eqn:Ht; [|done].
    apply Hf in Ht. lia.
Qed.

(** ** The time trigger *)

Lemma output_app s s' l : log s' = log s ++ l → output s s' = l.
Proof. unfold output. intros ->. apply drop_app_length. Qed.

Lemma calls_app s s' l : trace s' = trace s ++ l → calls s s' = l.
Proof. unfold calls. intros ->. apply drop_app_length. Qed.

(** C3, as the code has it. In every state the process can be in, at most
    one scheduled callback is pending. When it runs while the destination
    has not been destroyed, read at [nowNext] and [nowSchedule], the calls of
    the engine are, in this order: [reopen] of the file of the next number,
    [getNext(frequency)], [clearTimeout] of the handle that ran, and one
    [setTimeout] of the scheduled callback whose delay is the new [next]
    minus the present. After it the sequence number has grown by 1,
    [frequencySpec.next] is the new deadline, [rollTimeout] holds the new
    handle, and the timer that ran is gone. *)
Theorem time_trigger (s : State) (Hreach : reachable s) :
  (∀ i j ti tj,
     timers s !! i = Some ti → callback ti = ScheduledCallback →
     timers s !! j = Some tj → callback tj = ScheduledCallback → i = j) ∧
  (∀ id t nowNext nowSchedule,
     timers s !! id = Some t → callback t = ScheduledCallback →
     destroyed s = false →
     ∃ spec, frequencySpec s = Some spec ∧
       let s' := step s (EvTimeout id nowNext nowSchedule) in
       let next' := getNext (frequency (opts s)) nowNext in
       calls s s' =
         [Did (Reopen (fileName s (number s + 1)));
          GetNextCall (frequency (opts s)) nowNext;
          ClearTimeoutCall (Some id);
          SetTimeoutCall (timerSeq s) ScheduledCallback (next' - nowSchedule)] ∧
       number s' = number s + 1 ∧
       output s s' = [Reopen (fileName s (number s + 1))] ∧
       frequencySpec s' = Some (MkFrequencySpec (start spec) next') ∧
       rollTimeout s' = Some (timerSeq s) ∧
       timers s' = <[timerSeq s := MkTimer ScheduledCallback (next' - nowSchedule)]>
                     (delete id (timers s))).
Proof.
  pose proof (reachable_inv s Hreach) as [Hf Hh Hk Hs _ _]. split.
  - intros i j ti tj Hi Hci Hj Hcj.
    destruct (Hs _ _ Hi Hci) as [Hri _], (Hs _ _ Hj Hcj) as [Hrj _]. congruence.
  - intros id t n1 n2 Hid Hc Hlive.
    destruct (Hs _ _ Hid Hc) as (Hr & [spec Hspec] & _ & _).
    exists spec. split; [done|]. simpl. unfold runTimer. rewrite Hid, Hc.
    unfold scheduledCallback, reopenThrows. simpl. rewrite Hlive.
    unfold scheduleRoll, set_next, clearTimeout. simpl.
    rewrite Hspec. simpl. rewrite Hr. simpl. split_and!; try done.
    + apply calls_app. simpl. rewrite Hlive. by rewrite <- !(assoc_L (++)).
    + by apply output_app.
    + f_equal. apply delete_id, lookup_delete_eq.
Qed.

(** ** Closing the destination *)

Lemma step_closed s e : closed s = true → closed (step s e) = true.
Proof. intros H. listener_cases e; done. Qed.

Lemma run_closed s events : closed s = true → closed (run s events) = true.
Proof.
  revert s. induction events as [|e events IH]; intros s H; [done|].
  apply IH. by apply step_closed.
Qed.

Lemma closed_no_scheduled s id t :
  reachable s → closed s = true → timers s !! id = Some t →
  callback t = RollCallback.
Proof.
  intros [_ _ _ Hs _ _]%reachable_inv Hc Hid.
  destruct (callback t) eqn:Hcb; [done|].
  destruct (Hs _ _ Hid Hcb) as (_ & _ & _ & ?). congruence.
Qed.

(** A handle that is spent stays spent: [setTimeout] never returns it
    again. *)
Lemma step_spent s e id :
  (id < timerSeq s)%nat → timers s !! id = None →
  (id < timerSeq (step s e))%nat ∧ timers (step s e) !! id = None.
Proof.
  intros Hlt Hnone. listener_cases e; try done; try (split; [lia|]);
    rewrite ?lookup_insert_ne by lia; rewrite ?lookup_delete_None; eauto;
    try (right; rewrite ?lookup_delete_None; eauto).
Qed.

Lemma run_spent s events id :
  (id < timerSeq s)%nat → timers s !! id = None →
  timers (run s events) !! id = None.
Proof.
  revert s. induction events as [|e events IH]; intros s Hlt Hnone; [done|].
  destruct (step_spent s e id Hlt Hnone). by apply IH.
Qed.

(** C4. When the destination closes while a scheduled callback is pending,
    the ['close'] listener removes it from the timers. From then on, for
    every further run of events, no scheduled callback is pending (what is
    pending is a deferred [roll] of the size trigger), the cancelled handle
    is not pending, and the host running that handle changes nothing: no
    roll, no output. *)
Theorem close_cancels_timer (s : State) (id : nat) (t : Timer)
    (events : list Event)
    (Hreach : reachable s)
    (Hpending : timers s !! id = Some t)
    (Hscheduled : callback t = ScheduledCallback) :
  let s1 := step s EvClose in
  let s2 := run s1 events in
  timers s1 = delete id (timers s) ∧
  (∀ j u, timers s2 !! j = Some u → callback u = RollCallback) ∧
  timers s2 !! id = None ∧
  ∀ nowNext nowSchedule, step s2 (EvTimeout id nowNext nowSchedule) = s2.
Proof.
  intros s1 s2.
  pose proof (reachable_inv s Hreach) as [Hf _ _ Hs _ _].
  destruct (Hs _ _ Hpending Hscheduled) as (Hr & _ & Hoc & _).
  assert (timers s1 = delete id (timers s)) as Ht1.
  { subst s1. simpl. rewrite Hoc. unfold closeListener, clearTimeout. simpl.
    by rewrite Hr. }
  assert (timerSeq s1 = timerSeq s) as Hq1.
  { subst s1. simpl. rewrite Hoc. unfold closeListener, clearTimeout. simpl.
    by rewrite Hr. }
  assert (reachable s2) as Hreach2.
  { apply reachable_run. by constructor. }
  assert (closed s2 = true) as Hc2.
  { apply run_closed. subst s1. simpl. by destruct (onceClose s); unfold closeListener, clearTimeout; simpl; destruct (rollTimeout s). }
  assert (timers s2 !! id = None) as Hnone.
  { apply run_spent.
    - rewrite Hq1. by eapply Hf.
    - rewrite Ht1. apply lookup_delete_eq. }
  split_and!; try done.
  - intros j u Hj. by eapply closed_no_scheduled.
  - intros n1 n2. simpl. unfold runTimer. by rewrite Hnone.
Qed.
(** ** Errors of the destination *)

Lemma currentPath_report l msg :
  currentPath (l ++ [StderrWrite msg]) = currentPath l.
Proof. unfold currentPath. rewrite omap_app. simpl. by rewrite app_nil_r. Qed.


Lemma output_roll s : output s (roll s) = [Reopen (fileName s (number s + 1))].
Proof. by apply output_app. Qed.

Lemma output_roll_emit s e :
  output s (emit e (roll s)) = [Reopen (fileName s (number s + 1)); e].
Proof. apply output_app. simpl. by rewrite <- (assoc_L (++)). Qed.


(** C8, as the code has it. With [mkdir] set and the destination live (not
    destroyed), the ['error'] listener and [retryEAGAIN] roll first and
    report after: the output of each is the [reopen] of the next number
    followed by the line on stderr. *)
Theorem error_roll_then_report (s : State) (err : string)
    (writeBufferLen remainingBufferLen : Z)
    (Hmkdir : mkdir (opts s) = true) (Hlive : destroyed s = false) :
  let s1 := step s (EvError err) in
  let s2 := step s (EvRetryEAGAIN err writeBufferLen remainingBufferLen) in
  output s s1 = [Reopen (fileName s (number s + 1));
                 StderrWrite ("Pino Error : " +:+ err +:+ " " +:+ nl_cr)] ∧
  output s s2 = [Reopen (fileName s (number s + 1));
                 StderrWrite ("Pino retryEAGAIN : " +:+ err +:+ " " +:+ nl_cr)] ∧
  rollThenReport (output s s1) = true ∧
  reportThenRoll (output s s1) = false.
Proof.
  intros s1 s2. subst s1 s2. simpl. unfold errorListener, retryEAGAIN, reopenThrows.
  rewrite Hmkdir, Hlive. simpl. by rewrite !output_roll_emit.
Qed.

(** ** Signals *)

Lemma step_signals s e :
  onSIGHUP (step s e) = onSIGHUP s ∧ onSIGUSR2 (step s e) = onSIGUSR2 s.
Proof. listener_cases e; done. Qed.

(** C6. In every state the process can be in, whatever its byte count and
    its timers, either signal runs [roll] at once: the sequence number
    grows by 1 and one [reopen] is made, while the byte count, the timers,
    [frequencySpec] and [rollTimeout] stay as they are. Two signals in a row
    make exactly two rolls, to the next number and to the one after. *)
Theorem signals_roll (s : State) (Hreach : reachable s) :
  (∀ sig, let s' := step s (EvSignal sig) in
     s' = roll s ∧
     number s' = number s + 1 ∧
     output s s' = [Reopen (fileName s (number s + 1))] ∧
     currentSize s' = currentSize s ∧ timers s' = timers s ∧
     frequencySpec s' = frequencySpec s ∧ rollTimeout s' = rollTimeout s) ∧
  (∀ sig1 sig2, let s' := run s [EvSignal sig1; EvSignal sig2] in
     rolls s [EvSignal sig1; EvSignal sig2] =
       [(BySignal, number s + 1); (BySignal, number s + 2)] ∧
     number s' = number s + 2 ∧
     output s s' = [Reopen (fileName s (number s + 1));
                    Reopen (fileName s (number s + 2))]).
Proof.
  assert (∀ s sig, reachable s →
            step s (EvSignal sig) = roll s ∧
            trigger s (EvSignal sig) = Some BySignal) as Hsig.
  { intros s0 sig [_ _ _ _ _ [Hhup Husr]]%reachable_inv.
    destruct sig; simpl; by rewrite ?Hhup, ?Husr. }
  split.
  - intros sig s'. subst s'. destruct (Hsig s sig Hreach) as [-> _].
    split_and!; try done. apply output_roll.
  - intros sig1 sig2 s'. subst s'.
    assert (reachable (roll s)) as Hreach1.
    { destruct (Hsig s sig1 Hreach) as [<- _]. by constructor. }
    cbn [rolls run foldl].
    destruct (Hsig s sig1 Hreach) as [-> ->].
    destruct (Hsig (roll s) sig2 Hreach1) as [-> ->].
    split_and!; simpl.
    + do 3 f_equal. lia.
    + lia.
    + apply output_app. simpl. rewrite <- (assoc_L (++)). simpl.
      unfold fileName. by replace (number s + 1 + 1) with (number s + 2) by lia.
Qed.

(** C10. Both signal listeners are installed in every state the process
    can be in, closed or not: nothing removes them. Once the destination
    has closed no scheduled callback is pending, and yet a signal still
    runs [roll]: the sequence number grows by 1 and [reopen] is called on
    the closed destination. *)
Theorem signal_after_close (s : State) (sig : Signal)
    (Hreach : reachable s) (Hclosed : closed s = true) :
  onSIGHUP s = true ∧ onSIGUSR2 s = true ∧
  (∀ id t, timers s !! id = Some t → callback t ≠ ScheduledCallback) ∧
  let s' := step s (EvSignal sig) in
  number s' = number s + 1 ∧
  output s s' = [Reopen (fileName s (number s + 1))] ∧
  closed s' = true.
Proof.
  pose proof (reachable_inv s Hreach) as [_ _ _ _ _ [Hhup Husr]].
  split_and!; try done.
  - intros id t Hid. by rewrite (closed_no_scheduled s id t).
  - intros s'. subst s'. split_and!.
    + destruct sig; simpl; by rewrite ?Hhup, ?Husr.
    + destruct sig; simpl; rewrite ?Hhup, ?Husr; by apply output_app.
    + by apply step_closed.
Qed.
(** ** Configuration errors *)

(** C7. [parseFrequency] is called first and [parseSize] before the
    destination is constructed. If [parseFrequency] throws, the start-up
    code throws that error having done nothing. If [parseSize] throws,
    the start-up code throws and no destination has been constructed; the
    error is that of [parseSize] whenever the two calls before it returned.
    And whenever the start-up code returns a destination, both parsers
    returned, before the only construction. *)
Theorem configuration_errors (o : Options) (todayNow now : Z) :
  (∀ err, parseFrequency (frequency o) todayNow = Thrown err →
     startup o todayNow now = ([], Thrown err)) ∧
  (∀ err, parseSize (size o) = Thrown err →
     ∃ l err', startup o todayNow now = (l, Thrown err') ∧
       (∀ dest, NewSonicBoom dest ∉ l) ∧
       (∀ spec num,
          parseFrequency (frequency o) todayNow = Returned spec →
          detectLastNumber (file o) (start <$> spec) = Returned num →
          err' = err ∧ l = [ReadDirectory (file o) (start <$> spec)])) ∧
  (∀ l s, startup o todayNow now = (l, Returned s) →
     ∃ spec max dest,
       parseFrequency (frequency o) todayNow = Returned spec ∧
       parseSize (size o) = Returned max ∧
       l = [ReadDirectory (file o) (start <$> spec); NewSonicBoom dest]).
Proof.
  split_and!.
  - intros err H.
    unfold startup, pinoRoll, mbind, Startup_bind, call. by rewrite H.
  - intros err H.
    unfold startup, pinoRoll, mbind, Startup_bind, call, perform.
    destruct (parseFrequency _ _) as [spec|e1] eqn:Hf; simpl.
    + destruct (detectLastNumber _ _) as [num|e2] eqn:Hd; simpl.
      * rewrite H. eexists _, _. split_and!; [done| |].
        -- intros dest [[=]|[]%elem_of_nil]%elem_of_cons.
        -- intros spec' num' [= <-] Hd'. done.
      * eexists _, _. split_and!; [done| |].
        -- intros dest [[=]|[]%elem_of_nil]%elem_of_cons.
        -- intros spec' num' [= <-] Hd'. congruence.
    + eexists _, _. split_and!; [done| |].
      * intros dest []%elem_of_nil.
      * intros spec' num' [=].
  - intros l s (spec & num & max & Hf & _ & Hp & -> & _)%startup_returned.
    eauto 10.
Qed.

(** ** The byte count stays below the threshold *)

Lemma step_maxSize s e : maxSize (step s e) = maxSize s.
Proof. listener_cases e; done. Qed.

Lemma step_keeps_bound s e max :
  maxSize s = Some max → 0 < max →
  (if e is EvWrite w then 0 ≤ w else True) →
  0 ≤ currentSize s < max → 0 ≤ currentSize (step s e) < max.
Proof.
  intros Hmax Hpos Hw Hc. listener_cases e; try done; lia.
Qed.

(** C9. When the start-up code has returned with a threshold [maxSize]
    above 0, and every write notification of the run reports 0 bytes or
    more, [0 <= currentSize < maxSize] holds after every event of the run,
    so after every write listener. *)
Theorem currentSize_bounded (o : Options) (todayNow now : Z)
    (l : list Effect) (s : State) (max : Z) (events : list Event)
    (Hstart : startup o todayNow now = (l, Returned s))
    (Hmax : maxSize s = Some max) (Hpos : 0 < max)
    (Hwrites : nonNegativeWrites events) :
  0 ≤ currentSize (run s events) < max.
Proof.
  assert (0 ≤ currentSize s < max) as Hc.
  { apply startup_returned in Hstart as (spec & ? & ? & _ & _ & _ & _ & ->).
    destruct spec; simpl; lia. }
  clear Hstart. revert s Hmax Hc.
  induction Hwrites as [|e events He _ IH]; intros s Hmax Hc; [done|].
  apply IH.
  - by rewrite step_maxSize.
  - by apply (step_keeps_bound s e max).
Qed.
(** * Further properties of the engine *)

Lemma reports_app l1 l2 : reports (l1 ++ l2) = reports l1 ++ reports l2.
Proof. apply omap_app. Qed.

Lemma step_reports s e :
  mkdir (opts s) = false ∨ destroyed s = false →
  reports (log (step s e)) = reports (log s) ++ option_list (diagnostic e).
Proof.
  intros Hlive.
  listener_cases e; rewrite ?reports_app; simpl; rewrite ?app_nil_r; try done;
    destruct Hlive; congruence.
Qed.

Lemma step_live s e :
  destroyed s = false → keepsAlive e = true → destroyed (step s e) = false.
Proof. intros Hd He. listener_cases e; done. Qed.

(** X1. Over a run during which the destination is not destroyed, or with
    [mkdir] unset, the lines on stderr are exactly the lines of the
    ['error'] events and of the [retryEAGAIN] calls of the run, one each, in
    the order of the events; no other event writes to stderr. *)
Theorem stderr_lines (s : State) (events : list Event)
    (Hlive : mkdir (opts s) = false ∨
             (destroyed s = false ∧ forallb keepsAlive events = true)) :
  reports (log (run s events)) = reports (log s) ++ omap diagnostic events.
Proof.
  revert s Hlive. induction events as [|e events IH]; intros s Hlive.
  - simpl. by rewrite app_nil_r.
  - cbn [run foldl]. fold (run (step s e) events).
    rewrite IH, step_reports, <- (assoc_L (++)).
    + f_equal. cbn [omap list_omap]. by destruct (diagnostic e).
    + destruct Hlive as [?|[? _]]; eauto.
    + destruct Hlive as [Hm|[Hd Hall]].
      * left. by rewrite step_opts.
      * right. cbn [forallb] in Hall. apply andb_true_iff in Hall as [He Hall].
        split; [by apply step_live|done].
Qed.

Lemma step_configuration s e :
  maxSize (step s e) = maxSize s ∧
  start <$> frequencySpec (step s e) = start <$> frequencySpec s ∧
  onWrite (step s e) = onWrite s.
Proof.
  listener_cases e; split_and!; simpl; try congruence;
    match goal with H : frequencySpec _ = _ |- _ => by rewrite H end.
Qed.

(** X2. No event changes the configuration: over any run the options, the
    threshold [maxSize], the bucket start [frequencySpec.start] (and whether
    there is a [frequencySpec] at all), and the installed write and signal
    listeners are what the start-up code made them; of [frequencySpec] only
    [next] is ever assigned. *)
Theorem configuration_kept (s : State) (events : list Event) :
  opts (run s events) = opts s ∧
  maxSize (run s events) = maxSize s ∧
  start <$> frequencySpec (run s events) = start <$> frequencySpec s ∧
  onWrite (run s events) = onWrite s ∧
  onSIGHUP (run s events) = onSIGHUP s ∧
  onSIGUSR2 (run s events) = onSIGUSR2 s.
Proof.
  revert s. induction events as [|e events IH]; intros s; [done|].
  cbn [run foldl]. fold (run (step s e) events).
  destruct (IH (step s e)) as (-> & -> & -> & -> & -> & ->).
  destruct (step_configuration s e) as (-> & -> & ->).
  destruct (step_signals s e) as (-> & ->).
  by rewrite step_opts.
Qed.

(** X3. Only a write notification changes the byte count: a roll made by
    the timer, by a signal or after an error, and the deferred roll of the
    size trigger itself, leave [currentSize] as it is, so the bytes counted
    before such a roll count towards the threshold of the next file. *)
Theorem count_kept (s : State) (events : list Event)
    (Hnowrite : forallb (λ e, negb (isWrite e)) events = true) :
  currentSize (run s events) = currentSize s.
Proof.
  revert s Hnowrite. induction events as [|e events IH]; intros s H; [done|].
  cbn [forallb] in H. apply andb_true_iff in H as [He H].
  cbn [run foldl]. fold (run (step s e) events). rewrite (IH _ H).
  clear IH H. listener_cases e; done.
Qed.

Lemma currentPath_reopen l p : currentPath (l ++ [Reopen p]) = Some p.
Proof. unfold currentPath. rewrite omap_app. simpl. apply last_snoc. Qed.

Lemma constructions_app l1 l2 :
  constructions (l1 ++ l2) = constructions l1 ++ constructions l2.
Proof. apply omap_app. Qed.

Lemma step_path s e :
  currentPath (log s) = Some (fileName s (number s)) →
  currentPath (log (step s e)) = Some (fileName (step s e) (number (step s e))).
Proof.
  intros H. rewrite fileName_step.
  listener_cases e; rewrite ?currentPath_report, ?currentPath_reopen; done.
Qed.

Lemma step_constructions s e :
  constructions (log (step s e)) = constructions (log s).
Proof.
  listener_cases e; rewrite ?constructions_app; simpl; rewrite ?app_nil_r; done.
Qed.

(** X4. In every state the process can be in, the file the destination
    writes to is the one [buildFileName] names for the current [number], and
    the destination has been constructed exactly once. *)
Theorem path_follows_number (s : State) (Hreach : reachable s) :
  currentPath (log s) = Some (fileName s (number s)) ∧
  length (constructions (log s)) = 1%nat.
Proof.
  induction Hreach as [o t n l s Hs|s e _ [IH1 IH2]].
  - apply startup_returned in Hs as (spec & num & max & _ & _ & _ & -> & ->).
    by destruct spec.
  - split; [by apply step_path|]. by rewrite step_constructions.
Qed.

(** ** Runs without a threshold, runs without a frequency *)

Lemma run_invariant (P : State → Prop) :
  (∀ s e, P s → P (step s e)) → ∀ s events, P s → P (run s events).
Proof.
  intros Hstep s events. revert s.
  induction events as [|e events IH]; intros s Hs; [done|].
  apply IH. by apply Hstep.
Qed.

Lemma rolls_avoid (P : State → Prop) (t0 : Trigger) :
  (∀ s e, P s → P (step s e)) → (∀ s e, P s → trigger s e ≠ Some t0) →
  ∀ s events, P s → ∀ r, r ∈ rolls s events → r.1 ≠ t0.
Proof.
  intros Hstep Htrig s events. revert s.
  induction events as [|e events IH]; intros s Hs r Hr.
  - by apply elem_of_nil in Hr.
  - cbn [rolls] in Hr. specialize (IH (step s e) (Hstep _ _ Hs)).
    destruct (trigger s e) as [t|] eqn:Ht; [|by apply IH].
    apply elem_of_cons in Hr as [->|Hr]; [|by apply IH].
    simpl. intros ->. by apply (Htrig s e).
Qed.

Ltac pending H :=
  repeat first
    [ apply lookup_insert_Some in H as [[_ <-]|[_ H]]
    | apply lookup_delete_Some in H as [_ H] ].

Lemma step_Unsized s e : Unsized s → Unsized (step s e).
Proof.
  intros (Hw & Hc & Ht). unfold Unsized.
  listener_cases e; split_and!; try done; try congruence;
    intros j u Hj; pending Hj; eauto.
Qed.

Lemma step_Untimed s e : Untimed s → Untimed (step s e).
Proof.
  intros (Hf & Hr & Ht). unfold Untimed.
  listener_cases e; split_and!; try done; try congruence;
    try (intros j u Hj; pending Hj; eauto);
    match goal with
    | H : timers s !! _ = Some ?t, H' : callback ?t = ScheduledCallback |- _ =>
        apply Ht in H; congruence
    end.
Qed.

(** X5. When [maxSize] is falsy (no number, or the number 0), no
    ['write'] listener is installed: over any run the byte count stays 0, no
    deferred roll is ever pending, and no roll of the run is caused by
    size. *)
Theorem no_threshold_no_size_roll (o : Options) (todayNow now : Z)
    (l : list Effect) (s : State) (events : list Event)
    (Hstart : startup o todayNow now = (l, Returned s))
    (Hfalsy : truthy (maxSize s) = false) :
  currentSize (run s events) = 0 ∧
  (∀ id t, timers (run s events) !! id = Some t → callback t = ScheduledCallback) ∧
  (∀ r, r ∈ rolls s events → r.1 ≠ BySize).
Proof.
  assert (Unsized s) as Hs.
  { apply startup_returned in Hstart as (spec & num & max & _ & _ & _ & _ & ->).
    destruct spec; simpl in *; split_and!; try done.
    intros id t Hid. simpl in Hid. by apply lookup_singleton_Some in Hid as [_ <-]. }
  split_and!.
  - by apply (run_invariant Unsized step_Unsized s events).
  - by apply (run_invariant Unsized step_Unsized s events).
  - apply (rolls_avoid Unsized BySize step_Unsized); [|done].
    intros s0 e (_ & _ & Ht). destruct e as [| | | | |[]|id ? ?]; simpl;
      repeat case_match; try done.
    intros [=]. match goal with H : timers _ !! _ = _ |- _ => apply Ht in H end.
    congruence.
Qed.

(** X6. When no [frequency] is given, [scheduleRoll] is never called: over
    any run [frequencySpec] stays [null], [rollTimeout] stays [undefined], no
    scheduled callback is ever pending, and no roll of the run is caused by
    the timer. *)
Theorem no_frequency_no_timer (o : Options) (todayNow now : Z)
    (l : list Effect) (s : State) (events : list Event)
    (Hstart : startup o todayNow now = (l, Returned s))
    (Hnone : frequencySpec s = None) :
  frequencySpec (run s events) = None ∧
  rollTimeout (run s events) = None ∧
  (∀ id t, timers (run s events) !! id = Some t → callback t = RollCallback) ∧
  (∀ r, r ∈ rolls s events → r.1 ≠ ByTime).
Proof.
  assert (Untimed s) as Hs.
  { apply startup_returned in Hstart as (spec & num & max & _ & _ & _ & _ & ->).
    destruct spec; simpl in *; [done|]. split_and!; done. }
  split_and!.
  - by apply (run_invariant Untimed step_Untimed s events).
  - by apply (run_invariant Untimed step_Untimed s events).
  - by apply (run_invariant Untimed step_Untimed s events).
  - apply (rolls_avoid Untimed ByTime step_Untimed); [|done].
    intros s0 e (_ & _ & Ht). destruct e as [| | | | |[]|id ? ?]; simpl;
      repeat case_match; try done.
    intros [=]. match goal with H : timers _ !! _ = _ |- _ => apply Ht in H end.
    congruence.
Qed.

(** ** The timer while the destination is open *)

Lemma step_closed_now s : closed (step s EvClose) = true.
Proof.
  simpl. destruct (onceClose s); [|done].
  unfold closeListener, clearTimeout. simpl. by destruct (rollTimeout s).
Qed.

Lemma step_open s e : closed (step s e) = false → closed s = false.
Proof.
  intros H. destruct (closed s) eqn:Hc; [|done].
  by rewrite (step_closed s e Hc) in H.
Qed.

Lemma step_was_live s e :
  destroyed (step s e) = false → destroyed s = false ∧ keepsAlive e = true.
Proof. listener_cases e; done. Qed.

(** X7. While a [frequencySpec] is set and the destination has not been
    destroyed, a scheduled callback is pending in every state the process can
    be in, and it is the one [rollTimeout] holds: the timer is armed at
    start-up and re-armed by each run of its callback, and no other event
    removes it. (Once the destination has been destroyed, a run of the
    callback throws in [roll()] and arms nothing.) *)
Theorem timer_always_armed (s : State)
    (Hreach : reachable s)
    (Hspec : is_Some (frequencySpec s)) (Hlive : destroyed s = false) :
  ∃ id ms, rollTimeout s = Some id ∧
           timers s !! id = Some (MkTimer ScheduledCallback ms).
Proof.
  induction Hreach as [o t n l s Hs|s e Hreach IH].
  - apply startup_returned in Hs as (spec & num & max & _ & _ & _ & _ & ->).
    destruct spec as [sp|]; [|by destruct Hspec].
    exists 0%nat, (next sp - n). split; [done|]. apply lookup_singleton_eq.
  - pose proof (reachable_inv s Hreach) as [Hf Hh Hk Hs _ _].
    assert (is_Some (frequencySpec s)) as Hspec0.
    { destruct (step_configuration s e) as (_ & Hst & _).
      destruct Hspec as [sp Hsp]. rewrite Hsp in Hst.
      destruct (frequencySpec s); [eauto|done]. }
    destruct (step_was_live s e Hlive) as [Hlive0 Halive].
    destruct (IH Hspec0 Hlive0) as (id & ms & Hr & Hid).
    pose proof (Hh _ Hr) as Hlt.
    destruct e as [w|err|err wl rl| | |sig|j n1 n2]; try done.
    + simpl. destruct (onWrite s); [|eauto]. unfold writeListener. simpl.
      destruct (maxSize s) as [max|]; [|eauto].
      destruct (max <=? currentSize s + w); [|eauto]. simpl.
      exists id, ms. split; [done|]. rewrite lookup_insert_ne by lia. done.
    + simpl. unfold errorListener, reopenThrows. rewrite Hlive0, andb_false_r.
      destruct (mkdir _); simpl; eauto.
    + simpl. unfold retryEAGAIN, reopenThrows. rewrite Hlive0, andb_false_r.
      destruct (mkdir _); simpl; eauto.
    + destruct sig; simpl; [destruct (onSIGHUP s)|destruct (onSIGUSR2 s)];
        simpl; eauto.
    + simpl. unfold runTimer. destruct (timers s !! j) as [u|] eqn:Hj; [|eauto].
      destruct (callback u) eqn:Hcb.
      * simpl. exists id, ms. split; [done|].
        rewrite lookup_delete_ne; [done|]. intros ->.
        rewrite Hid in Hj. injection Hj as <-. done.
      * destruct Hspec0 as [sp Hsp].
        unfold scheduledCallback, reopenThrows. simpl. rewrite Hlive0.
        unfold scheduleRoll, set_next, clearTimeout. simpl.
        rewrite Hsp. simpl. rewrite Hr. simpl.
        eexists _, _. split; [done|]. apply lookup_insert_eq.
Qed.

(** X8. The ['close'] listener clears only [rollTimeout]. A roll that the
    size trigger has deferred and that is still pending when the destination
    closes stays pending, and when it runs it rolls: the sequence number
    grows by 1 and [reopen] is called on the closed destination. *)
Theorem deferred_roll_survives_close (s : State) (id : nat) (t : Timer)
    (Hreach : reachable s)
    (Hpending : timers s !! id = Some t)
    (Hdeferred : callback t = RollCallback) :
  let s1 := step s EvClose in
  timers s1 !! id = Some t ∧ closed s1 = true ∧
  ∀ nowNext nowSchedule,
    let s2 := step s1 (EvTimeout id nowNext nowSchedule) in
    number s2 = number s + 1 ∧
    output s1 s2 = [Reopen (fileName s (number s + 1))] ∧
    closed s2 = true.
Proof.
  intros s1.
  pose proof (reachable_inv s Hreach) as [_ _ Hk _ _ _].
  assert (timers s1 !! id = Some t ∧ closed s1 = true ∧
          number s1 = number s ∧ opts s1 = opts s) as (H1 & H2 & H3 & H4).
  { subst s1. simpl. destruct (onceClose s); [|done].
    unfold closeListener, clearTimeout. simpl.
    destruct (rollTimeout s) as [h|] eqn:Hr; [|done]. simpl.
    split_and!; try done. rewrite lookup_delete_ne; [done|]. intros ->.
    specialize (Hk _ _ eq_refl Hpending). congruence. }
  split_and!; try done. intros n1 n2 s2. subst s2.
  simpl. unfold runTimer. rewrite H1, Hdeferred. simpl.
  rewrite H2, H3. split_and!; try done.
  apply output_app. simpl. unfold fileName. by rewrite H3, H4.
Qed.

(** ** Start-up *)

(** X9. When [detectLastNumber] throws, the start-up code throws the same
    error; by then it has read the directory and nothing else: [parseSize]
    has not been consulted and no destination has been constructed. *)
Theorem detect_error_stops_startup (o : Options) (todayNow now : Z)
    (spec : option FrequencySpec) (err : string)
    (Hfreq : parseFrequency (frequency o) todayNow = Returned spec)
    (Hdetect : detectLastNumber (file o) (start <$> spec) = Thrown err) :
  startup o todayNow now = ([ReadDirectory (file o) (start <$> spec)], Thrown err).
Proof.
  unfold startup, pinoRoll, mbind, Startup_bind, call, perform.
  rewrite Hfreq. simpl. by rewrite Hdetect.
Qed.

(** X10. When the start-up code returns, the engine is at the number that
    [detectLastNumber] returned (not the one after it), with a byte count of
    0, an open destination and both signal listeners; the write listener is
    installed exactly when [maxSize] is truthy; with a frequency one timer
    is armed, for [frequencySpec.next] minus the present, the ['close']
    listener waits and [rollTimeout] holds the timer; without a frequency
    there is no timer and no ['close'] listener. *)
Theorem startup_state (o : Options) (todayNow now : Z)
    (l : list Effect) (s : State)
    (Hstart : startup o todayNow now = (l, Returned s)) :
  ∃ num,
    detectLastNumber (file o) (start <$> frequencySpec s) = Returned num ∧
    parseFrequency (frequency o) todayNow = Returned (frequencySpec s) ∧
    parseSize (size o) = Returned (maxSize s) ∧
    opts s = o ∧ number s = num ∧ currentSize s = 0 ∧ closed s = false ∧
    log s = l ∧
    onWrite s = truthy (maxSize s) ∧ onSIGHUP s = true ∧ onSIGUSR2 s = true ∧
    match frequencySpec s with
    | Some spec =>
        timers s = {[ 0%nat := MkTimer ScheduledCallback (next spec - now) ]} ∧
        rollTimeout s = Some 0%nat ∧ onceClose s = true
    | None =>
        timers s = ∅ ∧ rollTimeout s = None ∧ onceClose s = false
    end.
Proof.
  apply startup_returned in Hstart as (spec & num & max & Hf & Hd & Hp & _ & ->).
  exists num. destruct spec; simpl; split_and!; done.
Qed.

(** ** Size accounting over a sequence of writes *)

Lemma writes_accounting s max ws :
  maxSize s = Some max → onWrite s = true →
  let s' := run s (EvWrite <$> ws) in
  let k := crossings max (currentSize s) ws in
  currentSize s' = carried max (currentSize s) ws ∧
  number s' = number s ∧ log s' = log s ∧
  rollTimeout s' = rollTimeout s ∧
  timerSeq s' = (timerSeq s + k)%nat ∧
  ∀ id, timers s' !! id =
        if decide (timerSeq s ≤ id < timerSeq s + k)%nat
        then Some (MkTimer RollCallback 0) else timers s !! id.
Proof.
  revert s. induction ws as [|w ws IH]; intros s Hmax Hon; cbn zeta.
  - simpl. split_and!; try done; try lia.
    intros id. case_decide; [lia|done].
  - rewrite fmap_cons. cbn [run foldl carried crossings].
    fold (run (step s (EvWrite w)) (EvWrite <$> ws)).
    destruct (max <=? currentSize s + w) eqn:Hc.
    + apply Z.leb_le in Hc. rewrite (write_crossing s max w) by done.
      match goal with |- context [run ?x _] => set (s1 := x) end.
      destruct (IH s1 Hmax Hon) as (H1 & H2 & H3 & H4 & H5 & H6).
      change (currentSize s1) with 0 in *. change (timerSeq s1) with (S (timerSeq s)) in *.
      split_and!; try done; try lia.
      intros id. rewrite H6. change (timers s1) with (<[timerSeq s := MkTimer RollCallback 0]> (timers s)).
      repeat case_decide; try lia; try done.
      * assert (id = timerSeq s) as -> by lia. by rewrite lookup_insert_eq.
      * rewrite lookup_insert_ne by lia. done.
    + apply Z.leb_gt in Hc. rewrite (write_below s max w) by done.
      match goal with |- context [run ?x _] => set (s1 := x) end.
      destruct (IH s1 Hmax Hon) as (H1 & H2 & H3 & H4 & H5 & H6).
      split_and!; done.
Qed.

(** X11. With a threshold configured, a sequence of write notifications
    leaves the byte count that the running sum, reset to 0 at each crossing
    of the threshold, leaves; it hands one deferred roll to the timers per
    crossing, each under a handle of its own and none lost or merged; and it
    rolls nothing itself: the sequence number, the output and the other
    timers are as before. *)
Theorem size_accounting (s : State) (max : Z) (ws : list Z)
    (Hreach : reachable s) (Hmax : maxSize s = Some max)
    (Hcfg : truthy (maxSize s) = true) :
  let s' := run s (EvWrite <$> ws) in
  let k := crossings max (currentSize s) ws in
  currentSize s' = carried max (currentSize s) ws ∧
  number s' = number s ∧ log s' = log s ∧
  rollTimeout s' = rollTimeout s ∧
  ∀ id, timers s' !! id =
        if decide (timerSeq s ≤ id < timerSeq s + k)%nat
        then Some (MkTimer RollCallback 0) else timers s !! id.
Proof.
  pose proof (reachable_inv s Hreach) as [_ _ _ _ Hon _]. rewrite Hcfg in Hon.
  destruct (writes_accounting s max ws Hmax Hon) as (H1 & H2 & H3 & H4 & _ & H6).
  done.
Qed.

Lemma run_deferred s ids nowNext nowSchedule :
  NoDup ids →
  (∀ id, id ∈ ids → ∃ t, timers s !! id = Some t ∧ callback t = RollCallback) →
  let s' := run s ((λ id, EvTimeout id nowNext nowSchedule) <$> ids) in
  number s' = number s + Z.of_nat (length ids) ∧
  currentSize s' = currentSize s ∧
  ∀ id, timers s' !! id = if decide (id ∈ ids) then None else timers s !! id.
Proof.
  revert s. induction ids as [|i ids IH]; intros s Hnd Hids; cbn zeta.
  - simpl. split_and!; try done; lia.
  - apply NoDup_cons in Hnd as [Hni Hnd].
    destruct (Hids i) as (t & Hi & Hcb); [by left|].
    rewrite fmap_cons. cbn [run foldl].
    match goal with |- context [foldl step ?x ?l] => set (s1 := x); fold (run s1 l) end.
    assert (number s1 = number s + 1 ∧ currentSize s1 = currentSize s ∧
            timers s1 = delete i (timers s)) as (Hn1 & Hc1 & Ht1).
    { subst s1. simpl. unfold runTimer. rewrite Hi, Hcb. done. }
    destruct (IH s1 Hnd) as (H1 & H2 & H3).
    { intros id Hid. destruct (Hids id) as (u & Hu & Hcu); [by right|].
      exists u. split; [|done]. rewrite Ht1, lookup_delete_ne; [done|].
      intros ->. done. }
    split_and!.
    + rewrite H1, Hn1. cbn [length]. lia.
    + by rewrite H2.
    + intros id. rewrite H3, Ht1. destruct (decide (id = i)) as [->|Hne].
      * rewrite decide_False by done. rewrite decide_True by left.
        apply lookup_delete_eq.
      * rewrite lookup_delete_ne by done.
        destruct (decide (id ∈ ids)) as [Hin|Hout].
        -- rewrite decide_True; [done|by right].
        -- rewrite decide_False; [done|]. by intros [?|?]%elem_of_cons.
Qed.

(** X12. Write notifications that cross the threshold several times before
    any timer runs cause one roll per crossing: once the deferred rolls have
    all run, the sequence number has grown by the number of crossings, the
    byte count is what the writes left, and the timers are those from before
    the writes. *)
Theorem burst_rolls_per_crossing (s : State) (max : Z) (ws : list Z)
    (nowNext nowSchedule : Z)
    (Hreach : reachable s) (Hmax : maxSize s = Some max)
    (Hcfg : truthy (maxSize s) = true) :
  let k := crossings max (currentSize s) ws in
  let ticks := (λ id, EvTimeout id nowNext nowSchedule) <$> seq (timerSeq s) k in
  let s' := run s ((EvWrite <$> ws) ++ ticks) in
  number s' = number s + Z.of_nat k ∧
  currentSize s' = carried max (currentSize s) ws ∧
  timers s' = timers s.
Proof.
  intros k ticks s'. subst s' ticks. rewrite run_app.
  pose proof (reachable_inv s Hreach) as [Hf _ _ _ Hon _]. rewrite Hcfg in Hon.
  destruct (writes_accounting s max ws Hmax Hon) as (H1 & H2 & _ & _ & _ & H6).
  fold k in H6.
  destruct (run_deferred (run s (EvWrite <$> ws)) (seq (timerSeq s) k)
              nowNext nowSchedule) as (G1 & G2 & G3).
  { apply NoDup_seq. }
  { intros id Hid%elem_of_seq. rewrite H6.
    rewrite decide_True by lia. eauto. }
  rewrite length_seq in G1. split_and!.
  - by rewrite G1, H2.
  - by rewrite G2, H1.
  - apply map_eq. intros id. rewrite G3, H6.
    destruct (decide (id ∈ seq (timerSeq s) k)) as [Hin|Hout].
    + apply elem_of_seq in Hin. symmetry.
      destruct (timers s !! id) as [t|] eqn:Ht; [|done].
      apply Hf in Ht. lia.
    + rewrite decide_False; [done|]. intros ?. apply Hout, elem_of_seq. lia.
Qed.

(** ** After the destination has been destroyed *)

Lemma logged_by_Did (l : list Effect) : omap logged_by (Did <$> l) = l.
Proof. induction l as [|e l IH]; [done|]. cbn. by rewrite IH. Qed.

Lemma step_trace_log s e :
  omap logged_by (trace s) = log s →
  omap logged_by (trace (step s e)) = log (step s e).
Proof.
  intros H. listener_cases e; destruct (destroyed s);
    rewrite ?omap_app, ?H; simpl; rewrite ?app_nil_r; done.
Qed.

(** The output log is the trace without the timer calls, the calls of
    [getNext] and the exceptions. *)
Lemma trace_keeps_log s : reachable s → omap logged_by (trace s) = log s.
Proof.
  induction 1 as [o t n l s Hs|s e _ IH].
  - apply startup_returned in Hs as (spec & num & max & _ & _ & _ & _ & ->).
    destruct spec; simpl; rewrite ?omap_app, logged_by_Did; simpl;
      rewrite ?app_nil_r; done.
  - by apply step_trace_log.
Qed.

Lemma step_Dead s e : Dead s → Dead (step s e).
Proof.
  intros (Hd & Ht). unfold Dead.
  listener_cases e; split_and!; try done; try congruence;
    try (intros j u Hj; pending Hj; eauto);
    match goal with
    | H : timers s !! _ = Some ?t, H' : callback ?t = ScheduledCallback |- _ =>
        apply Ht in H; congruence
    end.
Qed.

(** X13. Once the destination has been destroyed, [roll()] still moves to
    the next number and calls [reopen], which throws. So with [mkdir] set an
    ['error'] event rolls and writes nothing to stderr; and a scheduled
    callback that is still pending rolls when it runs, does not recompute
    [frequencySpec.next] and arms nothing: from then on no scheduled callback
    is ever pending again. *)
Theorem destroyed_roll_throws (s : State)
    (Hreach : reachable s) (Hdead : destroyed s = true) :
  (∀ err, mkdir (opts s) = true →
     let s' := step s (EvError err) in
     calls s s' = [Did (Reopen (fileName s (number s + 1)));
                   Raised "SonicBoom destroyed"] ∧
     reports (output s s') = [] ∧
     number s' = number s + 1) ∧
  (∀ id t nowNext nowSchedule events,
     timers s !! id = Some t → callback t = ScheduledCallback →
     let s' := step s (EvTimeout id nowNext nowSchedule) in
     calls s s' = [Did (Reopen (fileName s (number s + 1)));
                   Raised "SonicBoom destroyed"] ∧
     number s' = number s + 1 ∧
     frequencySpec s' = frequencySpec s ∧
     timers s' = delete id (timers s) ∧
     ∀ j u, timers (run s' events) !! j = Some u → callback u = RollCallback).
Proof.
  pose proof (reachable_inv s Hreach) as [_ _ _ Hs _ _]. split.
  - intros err Hmk s'. subst s'. simpl. unfold errorListener, reopenThrows.
    rewrite Hmk, Hdead. simpl. split_and!; [|by rewrite output_roll|done].
    apply calls_app. simpl. rewrite Hdead. by rewrite <- (assoc_L (++)).
  - intros id t n1 n2 events Hid Hc s'. subst s'. simpl. unfold runTimer.
    rewrite Hid, Hc. unfold scheduledCallback, reopenThrows. simpl.
    rewrite Hdead. split_and!; try done.
    + apply calls_app. simpl. rewrite Hdead. by rewrite <- (assoc_L (++)).
    + apply (run_invariant Dead step_Dead). split; [done|]. simpl.
      intros j u [Hne Hj]%lookup_delete_Some.
      destruct (callback u) eqn:Hcu; [done|].
      destruct (Hs _ _ Hj Hcu) as [Hrj _], (Hs _ _ Hid Hc) as [Hri _].
      congruence.
Qed.

End EngineProperties.

(** * The properties on the sample process *)

Example spec_parseSize_samples :
  spec_parseSize (JsString "10k") = Returned (Some 10240) ∧
  spec_parseSize (JsString "5m") = Returned (Some 5242880) ∧
  spec_parseSize (JsString "2g") = Returned (Some 2147483648) ∧
  spec_parseSize (JsNumber 100) = Returned (Some 104857600) ∧
  spec_parseSize (JsString "5x") = Thrown "InvalidConfiguration".
Proof. repeat split; reflexivity. Qed.

Lemma sample_startup :
  startup (U:=sampleUtils) sampleOptions sampleToday sampleNow =
  (log sampleState, Returned sampleState).
Proof. vm_compute. reflexivity. Defined.

Lemma sample_reachable : reachable (U:=sampleUtils) sampleState.
Proof. exact (reachable_startup _ _ _ _ _ sample_startup). Defined.

Example sample_run :
  let s := run (U:=sampleUtils) sampleState sizeThenTime in
  number s = 5 ∧ currentSize s = 0 ∧
  reopens (log s) = ["app.log.4.log"; "app.log.5.log"] ∧
  frequencySpec s = Some (MkFrequencySpec 1699920000000 1700092800000) ∧
  map_to_list (timers s) = [(2%nat, MkTimer ScheduledCallback 86399998)].
Proof. vm_compute. repeat split; reflexivity. Qed.

(** A roll deferred by the size trigger is a timer of its own: closing the
    destination leaves it pending, and it rolls when it runs. *)
Example close_keeps_deferred_roll :
  let s := run (U:=sampleUtils) sampleState [EvWrite 2000; EvClose] in
  let s' := step (U:=sampleUtils) s (EvTimeout 1 0 0) in
  map_to_list (timers s) = [(1%nat, MkTimer RollCallback 0)] ∧
  closed s = true ∧ number s' = 4 ∧ output s s' = [Reopen "app.log.4.log"].
Proof. vm_compute. repeat split; reflexivity. Qed.

Lemma sequence_numbers_witness :
  number (run (U:=sampleUtils) sampleState sizeThenTime) = number sampleState + 2 ∧
  number (run (U:=sampleUtils) sampleState timeThenSize) = number sampleState + 2.
Proof.
  split.
  - apply (sequence_numbers (U:=sampleUtils) sampleState sizeThenTime).
    left. vm_compute. reflexivity.
  - apply (sequence_numbers (U:=sampleUtils) sampleState timeThenSize).
    right. vm_compute. reflexivity.
Defined.

Lemma size_trigger_witness :
  let s1 := run (U:=sampleUtils) sampleState (EvWrite <$> [600; 500]) in
  let s2 := run (U:=sampleUtils) s1 (EvWrite <$> [50]) in
  let s3 := step (U:=sampleUtils) s2 (EvTimeout 1 0 0) in
  (currentSize s1 = 0 ∧ number s1 = 3 ∧
   timers s1 = <[1%nat := MkTimer RollCallback 0]> (timers sampleState)) ∧
  (number s3 = 4 ∧ currentSize s3 = 50 ∧ timers s3 = timers sampleState).
Proof.
  destruct (size_trigger (U:=sampleUtils) sampleState 1024
              sample_reachable eq_refl eq_refl) as [_ H].
  destruct (H [600] 500 [50] eq_refl ltac:(vm_compute; discriminate) eq_refl)
    as ((H1 & H2 & _ & H3) & _ & H4).
  destruct (H4 0 0) as (H5 & _ & H6 & H7).
  repeat split; assumption.
Defined.

Lemma time_trigger_witness :
  let s' := step (U:=sampleUtils) sampleState
                 (EvTimeout 0 1700006400001 1700006400002) in
  calls sampleState s' =
    [Did (Reopen "app.log.4.log");
     GetNextCall (JsString "daily") 1700006400001;
     ClearTimeoutCall (Some 0%nat);
     SetTimeoutCall 1 ScheduledCallback 86399998] ∧
  number s' = 4 ∧
  output sampleState s' = [Reopen "app.log.4.log"] ∧
  frequencySpec s' = Some (MkFrequencySpec 1699920000000 1700092800000) ∧
  rollTimeout s' = Some 1%nat ∧
  timers s' = <[1%nat := MkTimer ScheduledCallback 86399998]> (delete 0%nat (timers sampleState)).
Proof.
  destruct (time_trigger (U:=sampleUtils) sampleState sample_reachable) as [_ H].
  destruct (H 0%nat (MkTimer ScheduledCallback 6399995)
              1700006400001 1700006400002 eq_refl eq_refl eq_refl)
    as (spec & Hspec & H0 & H1 & H2 & H3 & H4 & H5).
  injection Hspec as <-.
  repeat split; assumption.
Defined.

(** C3, as stated, fails on the sample process once its destination has
    been destroyed and has not yet emitted ['close']: the scheduled callback
    is still pending; when it runs, [roll()] calls [reopen], which throws,
    and the callback ends there: [frequencySpec.next] is not recomputed and
    no timer is armed. *)
Lemma time_trigger_counterexample :
  let s := step (U:=sampleUtils) sampleState EvDestroy in
  let s' := step (U:=sampleUtils) s (EvTimeout 0 1700006400001 1700006400002) in
  reachable (U:=sampleUtils) s ∧
  timers s !! 0%nat = Some (MkTimer ScheduledCallback 6399995) ∧
  calls s s' = [Did (Reopen "app.log.4.log"); Raised "SonicBoom destroyed"] ∧
  number s' = 4 ∧
  frequencySpec s' = frequencySpec s ∧
  map_to_list (timers s') = [].
Proof.
  split; [exact (reachable_step _ _ sample_reachable)|].
  vm_compute. repeat split; reflexivity.
Qed.

Lemma close_cancels_timer_witness :
  let s2 := run (U:=sampleUtils) (step (U:=sampleUtils) sampleState EvClose)
                [EvWrite 2000; EvSignal SIGHUP] in
  timers s2 !! 0%nat = None ∧
  step (U:=sampleUtils) s2 (EvTimeout 0 1700006400001 1700006400002) = s2.
Proof.
  destruct (close_cancels_timer (U:=sampleUtils) sampleState 0
              (MkTimer ScheduledCallback 6399995) [EvWrite 2000; EvSignal SIGHUP]
              sample_reachable eq_refl eq_refl) as (_ & _ & H1 & H2).
  split; [exact H1 | exact (H2 _ _)].
Defined.

Lemma error_roll_then_report_witness :
  output sampleState (step (U:=sampleUtils) sampleState (EvError "ENOSPC")) =
  [Reopen "app.log.4.log"; StderrWrite ("Pino Error : ENOSPC " +:+ nl_cr)].
Proof.
  exact (proj1 (error_roll_then_report (U:=sampleUtils) sampleState "ENOSPC" 0 0
                  eq_refl eq_refl)).
Defined.



(** C8, as stated, fails on the sample process: [mkdir] is set, the
    destination emits ['error'], and the output of the listener begins with
    the [reopen]; the line on stderr comes second. *)
Lemma error_report_then_roll_counterexample :
  reachable (U:=sampleUtils) sampleState ∧
  mkdir (opts sampleState) = true ∧
  output sampleState (step (U:=sampleUtils) sampleState (EvError "ENOSPC")) =
    [Reopen "app.log.4.log"; StderrWrite ("Pino Error : ENOSPC " +:+ nl_cr)] ∧
  reportThenRoll
    (output sampleState (step (U:=sampleUtils) sampleState (EvError "ENOSPC")))
  = false.
Proof. split; [exact sample_reachable|]. vm_compute. repeat split; reflexivity. Qed.

Lemma signals_roll_witness :
  let s' := run (U:=sampleUtils) sampleState [EvSignal SIGHUP; EvSignal SIGHUP] in
  number s' = 5 ∧
  output sampleState s' = [Reopen "app.log.4.log"; Reopen "app.log.5.log"].
Proof.
  destruct (signals_roll (U:=sampleUtils) sampleState sample_reachable) as [_ H].
  destruct (H SIGHUP SIGHUP) as (_ & H1 & H2).
  split; assumption.
Defined.

Lemma configuration_errors_witness :
  ∃ l err,
    startup (U:=sampleUtils) badSizeOptions sampleToday sampleNow = (l, Thrown err) ∧
    (∀ dest, NewSonicBoom dest ∉ l) ∧
    err = "InvalidConfiguration" ∧
    l = [ReadDirectory "app.log" (Some 1699920000000)].
Proof.
  destruct (configuration_errors (U:=sampleUtils) badSizeOptions sampleToday sampleNow)
    as (_ & H & _).
  destruct (H "InvalidConfiguration" eq_refl) as (l & err & H1 & H2 & H3).
  destruct (H3 (Some (MkFrequencySpec 1699920000000 1700006400000)) 3 eq_refl eq_refl)
    as [H4 H5].
  exists l, err. repeat split; assumption.
Defined.

Lemma currentSize_bounded_witness :
  0 ≤ currentSize (run (U:=sampleUtils) sampleState
                       [EvWrite 600; EvWrite 500; EvWrite 0; EvTimeout 1 0 0; EvWrite 1023])
    < 1024.
Proof.
  apply (currentSize_bounded (U:=sampleUtils) sampleOptions sampleToday sampleNow
           (log sampleState) sampleState 1024 _ sample_startup eq_refl eq_refl).
  unfold nonNegativeWrites. repeat constructor; vm_compute; discriminate.
Defined.

Lemma signal_after_close_witness :
  let s := step (U:=sampleUtils) sampleState EvClose in
  let s' := step (U:=sampleUtils) s (EvSignal SIGUSR2) in
  closed s = true ∧ number s' = 4 ∧
  output s s' = [Reopen "app.log.4.log"] ∧ closed s' = true.
Proof.
  destruct (signal_after_close (U:=sampleUtils)
              (step (U:=sampleUtils) sampleState EvClose) SIGUSR2
              (reachable_step _ _ sample_reachable) eq_refl)
    as (_ & _ & _ & H1 & H2 & H3).
  repeat split; assumption.
Defined.

(** * The further properties on sample processes *)

Lemma zeroSize_startup :
  startup (U:=sampleUtils) zeroSizeOptions sampleToday sampleNow =
  (log zeroSizeState, Returned zeroSizeState).
Proof. vm_compute. reflexivity. Defined.

Lemma noFrequency_startup :
  startup (U:=sampleUtils) noFrequencyOptions sampleToday sampleNow =
  (log noFrequencyState, Returned noFrequencyState).
Proof. vm_compute. reflexivity. Defined.

Lemma count_kept_witness :
  currentSize (run (U:=sampleUtils)
                 (step (U:=sampleUtils) sampleState (EvWrite 600))
                 [EvTimeout 0 1700006400001 1700006400002; EvSignal SIGHUP;
                  EvError "ENOSPC"; EvClose])
  = 600.
Proof.
  exact (count_kept (U:=sampleUtils)
           (step (U:=sampleUtils) sampleState (EvWrite 600))
           [EvTimeout 0 1700006400001 1700006400002; EvSignal SIGHUP;
            EvError "ENOSPC"; EvClose] eq_refl).
Defined.

Lemma path_follows_number_witness :
  let s := run (U:=sampleUtils) sampleState sizeThenTime in
  currentPath (log s) = Some (fileName (U:=sampleUtils) s (number s)).
Proof.
  exact (proj1 (path_follows_number (U:=sampleUtils) _
                  (reachable_run _ sizeThenTime sample_reachable))).
Defined.

Lemma no_threshold_no_size_roll_witness :
  currentSize (run (U:=sampleUtils) zeroSizeState
                 [EvWrite 5000; EvWrite 70000; EvSignal SIGUSR2]) = 0.
Proof.
  exact (proj1 (no_threshold_no_size_roll (U:=sampleUtils) zeroSizeOptions
                  sampleToday sampleNow (log zeroSizeState) zeroSizeState
                  [EvWrite 5000; EvWrite 70000; EvSignal SIGUSR2]
                  zeroSize_startup eq_refl)).
Defined.

Lemma no_frequency_no_timer_witness :
  rollTimeout (run (U:=sampleUtils) noFrequencyState
                 [EvWrite 2000; EvTimeout 0 0 0; EvClose; EvSignal SIGHUP]) = None.
Proof.
  exact (proj1 (proj2 (no_frequency_no_timer (U:=sampleUtils) noFrequencyOptions
                  sampleToday sampleNow (log noFrequencyState) noFrequencyState
                  [EvWrite 2000; EvTimeout 0 0 0; EvClose; EvSignal SIGHUP]
                  noFrequency_startup eq_refl))).
Defined.

Lemma timer_always_armed_witness :
  let s := run (U:=sampleUtils) sampleState sizeThenTime in
  ∃ id ms, rollTimeout s = Some id ∧
           timers s !! id = Some (MkTimer ScheduledCallback ms).
Proof.
  apply (timer_always_armed (U:=sampleUtils) _
           (reachable_run _ sizeThenTime sample_reachable)).
  - vm_compute. eexists. reflexivity.
  - vm_compute. reflexivity.
Defined.

Lemma deferred_roll_survives_close_witness :
  let s := step (U:=sampleUtils) sampleState (EvWrite 2000) in
  let s1 := step (U:=sampleUtils) s EvClose in
  let s2 := step (U:=sampleUtils) s1 (EvTimeout 1 0 0) in
  closed s1 = true ∧ number s2 = number s + 1 ∧
  output s1 s2 = [Reopen (fileName (U:=sampleUtils) s (number s + 1))].
Proof.
  destruct (deferred_roll_survives_close (U:=sampleUtils)
              (step (U:=sampleUtils) sampleState (EvWrite 2000)) 1
              (MkTimer RollCallback 0)
              (reachable_step _ _ sample_reachable) eq_refl eq_refl)
    as (_ & H1 & H2).
  destruct (H2 0 0) as (H3 & H4 & _).
  repeat split; assumption.
Defined.

Lemma detect_error_stops_startup_witness :
  startup (U:=unreadableUtils) sampleOptions sampleToday sampleNow =
  ([ReadDirectory "app.log" (Some 1699920000000)], Thrown "ENOENT").
Proof.
  exact (detect_error_stops_startup (U:=unreadableUtils) sampleOptions
           sampleToday sampleNow
           (Some (MkFrequencySpec 1699920000000 1700006400000)) "ENOENT"
           eq_refl eq_refl).
Defined.

Lemma startup_state_witness :
  ∃ num,
    detectLastNumber (Utils:=sampleUtils) "app.log" (Some 1699920000000) =
      Returned num ∧
    number sampleState = num ∧
    timers sampleState = {[ 0%nat := MkTimer ScheduledCallback 6399995 ]}.
Proof.
  destruct (startup_state (U:=sampleUtils) sampleOptions sampleToday sampleNow
              (log sampleState) sampleState sample_startup)
    as (num & H1 & _ & _ & _ & H2 & _ & _ & _ & _ & _ & _ & H3 & _).
  exists num. repeat split; assumption.
Defined.

Lemma size_accounting_witness :
  let s' := run (U:=sampleUtils) sampleState (EvWrite <$> [600; 500; 2000; 10]) in
  currentSize s' = 10 ∧ number s' = 3 ∧
  timers s' !! 1%nat = Some (MkTimer RollCallback 0) ∧
  timers s' !! 2%nat = Some (MkTimer RollCallback 0) ∧
  timers s' !! 3%nat = None.
Proof.
  destruct (size_accounting (U:=sampleUtils) sampleState 1024 [600; 500; 2000; 10]
              sample_reachable eq_refl eq_refl) as (H1 & H2 & _ & _ & H3).
  split_and!; [exact H1 | exact H2 | exact (H3 1%nat) | exact (H3 2%nat)
              | exact (H3 3%nat)].
Defined.

Lemma burst_rolls_per_crossing_witness :
  let s' := run (U:=sampleUtils) sampleState
              ((EvWrite <$> [600; 500; 2000; 10]) ++
               [EvTimeout 1 0 0; EvTimeout 2 0 0]) in
  number s' = 5 ∧ currentSize s' = 10 ∧ timers s' = timers sampleState.
Proof.
  exact (burst_rolls_per_crossing (U:=sampleUtils) sampleState 1024
           [600; 500; 2000; 10] 0 0 sample_reachable eq_refl eq_refl).
Defined.

Lemma stderr_lines_witness :
  reports (log (run (U:=sampleUtils) sampleState
                  [EvError "ENOSPC"; EvWrite 10; EvRetryEAGAIN "EAGAIN" 0 0;
                   EvSignal SIGHUP]))
  = reports (log sampleState) ++
    ["Pino Error : ENOSPC " +:+ nl_cr; "Pino retryEAGAIN : EAGAIN " +:+ nl_cr].
Proof.
  exact (stderr_lines (U:=sampleUtils) sampleState
           [EvError "ENOSPC"; EvWrite 10; EvRetryEAGAIN "EAGAIN" 0 0;
            EvSignal SIGHUP]
           (or_intror (conj eq_refl eq_refl))).
Defined.

Lemma destroyed_roll_throws_witness :
  let s := step (U:=sampleUtils) sampleState EvDestroy in
  let s' := step (U:=sampleUtils) s (EvTimeout 0 1700006400001 1700006400002) in
  number s' = number s + 1 ∧ frequencySpec s' = frequencySpec s ∧
  timers s' = delete 0%nat (timers s).
Proof.
  destruct (destroyed_roll_throws (U:=sampleUtils)
              (step (U:=sampleUtils) sampleState EvDestroy)
              (reachable_step _ _ sample_reachable) eq_refl) as [_ H].
  destruct (H 0%nat (MkTimer ScheduledCallback 6399995)
              1700006400001 1700006400002 [] eq_refl eq_refl)
    as (_ & H1 & H2 & H3 & _).
  repeat split; assumption.
Defined.
